(** * Render orchestration of invideo-studio: a shallow embedding

    The development follows [backend/src/services/render-service.ts] (the
    [RenderService] class) and the request schema [renderJobSchema] of the
    render routes.

    Conventions of the embedding.
    - JavaScript numbers are taken on their integer fragment and modelled
      by [Z]; the only division of the code (the progress formula) is
      modelled by exact rationals [Q].
    - [a || d] on a number or a string is [jsor]: the default [d] replaces
      a falsy value ([0], the empty string, [undefined]).
    - Optional fields ([content?], [source?], [style?]) are [option]s.
    - [style] is of type [any] and validated as an object only: the font
      size and the colour it may hold are values of any JSON kind, turned
      into text as a template literal does. The z-index is taken as a
      number.
    - Template literals are string concatenations written in the order of
      the template.
    - An [async] function is a computation that returns a value or throws
      the message of an error; an exception raised while a promise is being
      built rejects the promise. *)

From Stdlib Require Import ZArith QArith List String Ascii Lia Lqa Permutation Sorted.
From Stdlib Require Import DecimalString DecimalPos DecimalZ.
From stdpp Require Import gmap strings list fin_maps.

Local Open Scope Z_scope.

(** ** JavaScript helpers *)

Module Js.

(** [`${n}`] for an integer-valued number. *)
Definition show (n : Z) : string := NilZero.string_of_int (Z.to_int n).

(** [n || d] on numbers: [0] is falsy. *)
Definition jsor (n d : Z) : Z := if n =? 0 then d else n.

(** [s || d] on an optional string: [undefined] and the empty string are falsy. *)
Definition jsor_str (s : option string) (d : string) : string :=
  match s with
  | Some EmptyString | None => d
  | Some s' => s'
  end.

(** [o?.f || d] on an optional number. *)
Definition jsor_opt (n : option Z) (d : Z) : Z :=
  match n with
  | Some v => jsor v d
  | None => d
  end.

(** The outcome of a call: a value, or the message of the error thrown. *)
Inductive Result (A : Type) :=
| Ok (a : A)
| Throw (msg : string).
Arguments Ok {A} a.
Arguments Throw {A} msg.

(** [parts.join(sep)] *)
Fixpoint join (sep : string) (parts : list string) : string :=
  match parts with
  | [] => EmptyString
  | [p] => p
  | p :: rest => p +:+ sep +:+ join sep rest
  end.

(** A value of a JSON document. An object is kept without its members:
    none of the conversions below reads them. *)
#[warnings="-register-all"]
Inductive Value :=
| VNull
| VBool (b : bool)
| VNum (n : Z)
| VStr (s : string)
| VArr (items : list Value)
| VObj.

(** The values [||] passes on: all but [null], [false], [0] and the empty
    string. *)
Definition truthy (v : Value) : bool :=
  match v with
  | VNull => false
  | VBool b => b
  | VNum n => negb (n =? 0)
  | VStr s => negb (String.eqb s EmptyString)
  | VArr _ => true
  | VObj => true
  end.

(** [`${v}`]: an array is its items joined by commas, a [null] item
    giving the empty text. *)
Fixpoint toString (v : Value) : string :=
  match v with
  | VNull => "null"
  | VBool true => "true"
  | VBool false => "false"
  | VNum n => show n
  | VStr s => s
  | VArr items =>
      join "," (map (fun item => match item with
                                 | VNull => EmptyString
                                 | _ => toString item
                                 end) items)
  | VObj => "[object Object]"
  end.

(** [o?.f || d] on an optional value of any kind. *)
Definition jsor_val (v : option Value) (d : Value) : Value :=
  match v with
  | Some v' => if truthy v' then v' else d
  | None => d
  end.

(** [Array.prototype.sort(cmp)]: the sort is stable, so for a consistent
    comparator it is the insertion of each element before the first later
    element that does not compare strictly below it. *)
Section Sort.
Context {A : Type} (cmp : A -> A -> Z).

Fixpoint insert_sorted (x : A) (l : list A) : list A :=
  match l with
  | [] => [x]
  | y :: l' => if cmp x y <=? 0 then x :: y :: l' else y :: insert_sorted x l'
  end.

Definition sort (l : list A) : list A := foldr insert_sorted [] l.
End Sort.

(** [s.replace(/c/g, r)]: every occurrence of the character [c] is
    replaced by the string [r]. *)
Fixpoint replace_all (c : ascii) (r : string) (s : string) : string :=
  match s with
  | EmptyString => EmptyString
  | String a s' =>
      if Ascii.eqb a c then r +:+ replace_all c r s'
      else String a (replace_all c r s')
  end.

End Js.

(** ** Project model (the interfaces at the head of render-service.ts) *)

Inductive LayerType := video | image | text | audio.

Record Style := {
  zIndex : option Z;
  fontSize : option Js.Value;
  color : option Js.Value
}.

Record Layer := {
  id : string;
  type : LayerType;
  startTime : Z;
  duration : Z;
  x : Z;
  y : Z;
  width : Z;
  height : Z;
  content : option string;
  source : option string;
  style : option Style
}.

Inductive TransitionType := fade | cut | slide | zoom | wipe.

Record Transition := {
  t_type : TransitionType;
  t_duration : Z
}.

Record Scene := {
  s_id : string;
  s_duration : Z;
  layers : list Layer;
  transitions : option (list Transition)
}.

Record RenderSettings := {
  rs_width : Z;
  rs_height : Z;
  frameRate : Z;
  bitrate : option string;
  audioSampleRate : option Z;
  rs_quality : string
}.

Record RenderJob := {
  projectId : string;
  userId : string;
  scenes : list Scene;
  settings : RenderSettings;
  outputFormat : string;
  quality : string
}.

(** ** Compositing planner: the command built by [renderScene] *)

Module Planner.
Import Js.

(** [getBitrate]: the table, with [standard] for an unknown tier. *)
Definition getBitrate (q : string) : string :=
  if String.eqb q "draft" then "500k"
  else if String.eqb q "standard" then "2000k"
  else if String.eqb q "high" then "5000k"
  else if String.eqb q "ultra" then "10000k"
  else "2000k".

(** [getPriority]: the table, with [2] for an unknown tier. *)
Definition getPriority (q : string) : Z :=
  if String.eqb q "draft" then 1
  else if String.eqb q "standard" then 2
  else if String.eqb q "high" then 3
  else if String.eqb q "ultra" then 4
  else 2.

(** The text [enable='between(t,lo,hi)'] shared by the three filters. *)
Definition enableExpr (lo hi : Z) : string :=
  "enable='between(t," +:+ show lo +:+ "," +:+ show hi +:+ ")'".

Definition getImageFilter (layer : Layer) (inputIndex : Z) (st : RenderSettings) : string :=
  let x := jsor (x layer) 0 in
  let y := jsor (y layer) 0 in
  let width := jsor (width layer) (rs_width st) in
  let height := jsor (height layer) (rs_height st) in
  let startTime := jsor (startTime layer) 0 in
  let duration := jsor (duration layer) 5 in
  "[" +:+ show inputIndex +:+ ":v]scale=" +:+ show width +:+ ":" +:+ show height
  +:+ "[img" +:+ show inputIndex +:+ "];[0:v][img" +:+ show inputIndex
  +:+ "]overlay=" +:+ show x +:+ ":" +:+ show y +:+ ":"
  +:+ enableExpr startTime (startTime + duration)
  +:+ "[v" +:+ show inputIndex +:+ "];".

Definition getVideoFilter (layer : Layer) (inputIndex : Z) (st : RenderSettings) : string :=
  let x := jsor (x layer) 0 in
  let y := jsor (y layer) 0 in
  let width := jsor (width layer) (rs_width st) in
  let height := jsor (height layer) (rs_height st) in
  let startTime := jsor (startTime layer) 0 in
  let duration := jsor (duration layer) 5 in
  "[" +:+ show inputIndex +:+ ":v]scale=" +:+ show width +:+ ":" +:+ show height
  +:+ "[vid" +:+ show inputIndex +:+ "];[0:v][vid" +:+ show inputIndex
  +:+ "]overlay=" +:+ show x +:+ ":" +:+ show y +:+ ":"
  +:+ enableExpr startTime (startTime + duration)
  +:+ "[v" +:+ show inputIndex +:+ "];".

(** [text.replace(/'/g, "\\'")]: an apostrophe becomes backslash, apostrophe. *)
Definition escapeText (s : string) : string :=
  replace_all "'"%char "\'" s.

Definition getTextFilter (layer : Layer) (st : RenderSettings) : string :=
  let x := jsor (x layer) 0 in
  let y := jsor (y layer) 0 in
  let fontSize := jsor_val (style layer ≫= fontSize) (VNum 24) in
  let fontColor := jsor_val (style layer ≫= color) (VStr "white") in
  let startTime := jsor (startTime layer) 0 in
  let duration := jsor (duration layer) 5 in
  let text := jsor_str (content layer) "Text" in
  "drawtext=text='" +:+ escapeText text +:+ "':x=" +:+ show x +:+ ":y=" +:+ show y
  +:+ ":fontsize=" +:+ toString fontSize +:+ ":fontcolor=" +:+ toString fontColor +:+ ":"
  +:+ enableExpr startTime (startTime + duration) +:+ ";".

(** [a.style?.zIndex || 0] *)
Definition zIndexOf (l : Layer) : Z := jsor_opt (style l ≫= zIndex) 0.

(** The comparator handed to [scene.layers.sort]. *)
Definition compareLayers (a b : Layer) : Z :=
  if negb (startTime a =? startTime b) then startTime a - startTime b
  else zIndexOf a - zIndexOf b.

Definition sortedLayers (ls : list Layer) : list Layer := sort compareLayers ls.

(** One input of a command: its source, and the input format when one
    is set. *)
Record Input := {
  in_source : string;
  in_format : option string
}.

Record Command := {
  c_size : string;
  c_fps : Z;
  c_videoBitrate : string;
  c_inputs : list Input;
  c_complexFilter : option string;
  c_output : string
}.

(** The message of the TypeError the media library raises when it looks
    into a source that is [undefined]. *)
Definition inputTypeError : string :=
  "Cannot use 'in' operator to search for 'readable' in undefined".

(** [command.input(source)]: the library takes a source that is a string
    and adds it to the inputs; handed [undefined] (the code passes
    [layer.source!] unchecked) it throws before anything is added. *)
Definition input (source : option string) (inputs : list Input) : Result (list Input) :=
  match source with
  | Some src => Ok (inputs ++ [{| in_source := src; in_format := None |}])
  | None => Throw inputTypeError
  end.

(** The state of the loop over the sorted layers. *)
Record Acc := {
  a_inputs : list Input;
  filterComplex : string;
  inputIndex : Z
}.

(** One turn of the loop: the [switch] on the type of the layer. *)
Definition layerStep (st : RenderSettings) (acc : Acc) (layer : Layer) : Result Acc :=
  match type layer with
  | image =>
      match input (source layer) (a_inputs acc) with
      | Ok inputs =>
          Ok {| a_inputs := inputs;
                filterComplex := filterComplex acc +:+ getImageFilter layer (inputIndex acc) st;
                inputIndex := inputIndex acc + 1 |}
      | Throw e => Throw e
      end
  | video =>
      match input (source layer) (a_inputs acc) with
      | Ok inputs =>
          Ok {| a_inputs := inputs;
                filterComplex := filterComplex acc +:+ getVideoFilter layer (inputIndex acc) st;
                inputIndex := inputIndex acc + 1 |}
      | Throw e => Throw e
      end
  | text =>
      Ok {| a_inputs := a_inputs acc;
            filterComplex := filterComplex acc +:+ getTextFilter layer st;
            inputIndex := inputIndex acc |}
  | audio =>
      match input (source layer) (a_inputs acc) with
      | Ok inputs =>
          Ok {| a_inputs := inputs;
                filterComplex := filterComplex acc;
                inputIndex := inputIndex acc + 1 |}
      | Throw e => Throw e
      end
  end.

(** [for (const layer of sortedLayers)]: the turns in order, up to the
    first that throws. *)
Fixpoint layerLoop (st : RenderSettings) (acc : Acc) (ls : list Layer) : Result Acc :=
  match ls with
  | [] => Ok acc
  | layer :: rest =>
      match layerStep st acc layer with
      | Ok acc' => layerLoop st acc' rest
      | Throw e => Throw e
      end
  end.

Definition background (sc : Scene) (st : RenderSettings) : Input :=
  {| in_source := "color=black:size=" +:+ show (rs_width st) +:+ "x"
                  +:+ show (rs_height st) +:+ ":duration=" +:+ show (s_duration sc);
     in_format := Some "lavfi" |}.

Definition initAcc (sc : Scene) (st : RenderSettings) : Acc :=
  {| a_inputs := [background sc st]; filterComplex := EmptyString; inputIndex := 1 |}.

(** [path.join(dir, name)] for a directory without trailing separator. *)
Definition pathJoin (dir name : string) : string := dir +:+ "/" +:+ name.

Definition sceneOutput (workDir : string) (sceneIndex : Z) : string :=
  pathJoin workDir ("scene_" +:+ show sceneIndex +:+ ".mp4").

(** The planning part of [renderScene]: everything up to [.run()]. The
    outcome is the command, or the error thrown while it was being built.
    [scene.layers.sort] sorts the array of the scene in place before the
    loop starts, so the scene is returned with its layers sorted in either
    case. *)
Definition planScene (sc : Scene) (st : RenderSettings) (workDir : string)
    (sceneIndex : Z) : Result Command * Scene :=
  let sorted := sortedLayers (layers sc) in
  (match layerLoop st (initAcc sc st) sorted with
   | Ok acc =>
       Ok {| c_size := show (rs_width st) +:+ "x" +:+ show (rs_height st);
             c_fps := frameRate st;
             c_videoBitrate := getBitrate (rs_quality st);
             c_inputs := a_inputs acc;
             c_complexFilter :=
               if String.eqb (filterComplex acc) EmptyString then None
               else Some (filterComplex acc);
             c_output := sceneOutput workDir sceneIndex |}
   | Throw e => Throw e
   end,
   {| s_id := s_id sc; s_duration := s_duration sc; layers := sorted;
      transitions := transitions sc |}).

End Planner.

(** ** The world of the service: file system, job table, queue, trace *)

Module World.
Import Js Planner.

(** [render_jobs.status] *)
Inductive Status := queued | processing | completed | failed | cancelled.

(** The [metadata] written by [updateJobStatus]. *)
Inductive Metadata :=
| MdCompleted (outputUrl : string) (fileSize : Z)
| MdFailed (error : string).

(** A row of the [render_jobs] table. *)
Record Row := {
  project_id : string;
  user_id : string;
  status : Status;
  r_settings : RenderSettings;
  metadata : option Metadata
}.

(** The state of a job inside the queue. *)
Inductive QState :=
  q_waiting | q_prioritized | q_active | q_completed | q_failed | q_delayed.

(** What the worker function returns on success. *)
Record Return := {
  success : bool;
  outputUrl : string;
  ret_projectId : string;
  ret_jobId : string
}.

(** A job as the queue holds it. *)
Record QJob := {
  data : RenderJob;
  state : QState;
  progress : Q;
  attemptsMade : nat;
  priority : Z;
  failedReason : option string;
  returnvalue : option Return
}.

(** One observable action of the service, in the order performed. *)
Inductive Event :=
| EvStatus (jobId : string) (s : Status)
| EvProgress (jobId : string) (p : Q)
| EvMkdir (path : string)
| EvRenderScene (cmd : Command)
| EvWriteFile (path contents : string)
| EvConcat (listFile outputFile : string)
| EvUpload (bucket fileName contentType : string)
| EvRm (path : string)
| EvStat (path : string)
| EvBackoff (delay : Z).

Record World := {
  fs : list string;
  db : gmap string Row;
  queue : gmap string QJob;
  nextId : Z;
  log : list Event
}.

(** What lies outside the repository: the media tool, the object store,
    the file system's refusals and the clock, per attempt of a job.
    [None] from the tool means it ended without error; [Some msg] is the
    message of the error it raised. [uploadFile] is the object store's
    upload: the public URL, or the error it throws. *)
Record Env := {
  tempDir : string;
  ffmpegScene : nat -> Command -> option string;
  ffmpegConcat : nat -> string -> string -> option string;
  uploadFile : nat -> string -> string -> string -> Result string;
  rmRefused : nat -> bool;
  fileSize : string -> Z;
  now : nat -> Z
}.

(** Computations of the service: state passing with exceptions. *)
Definition M (A : Type) : Type := World -> Result A * World.

Definition ret {A} (a : A) : M A := fun w => (Ok a, w).

Definition throw {A} (msg : string) : M A := fun w => (Throw msg, w).

Definition bind {A B} (m : M A) (f : A -> M B) : M B :=
  fun w =>
    match m w with
    | (Ok a, w') => f a w'
    | (Throw e, w') => (Throw e, w')
    end.

(** [try { m } catch (error) { h error }] *)
Definition try_catch {A} (m : M A) (h : string -> M A) : M A :=
  fun w =>
    match m w with
    | (Ok a, w') => (Ok a, w')
    | (Throw e, w') => h e w'
    end.

Notation "x <- c1 ;; c2" := (bind c1 (fun x => c2))
  (at level 100, c1 at next level, right associativity).
Notation "e1 ;; e2" := (bind e1 (fun _ => e2))
  (at level 100, right associativity).

Definition emit (ev : Event) (w : World) : World :=
  {| fs := fs w; db := db w; queue := queue w; nextId := nextId w;
     log := log w ++ [ev] |}.

Definition setFs (f : list string) (w : World) : World :=
  {| fs := f; db := db w; queue := queue w; nextId := nextId w; log := log w |}.

Definition setDb (d : gmap string Row) (w : World) : World :=
  {| fs := fs w; db := d; queue := queue w; nextId := nextId w; log := log w |}.

Definition setQueue (q : gmap string QJob) (w : World) : World :=
  {| fs := fs w; db := db w; queue := q; nextId := nextId w; log := log w |}.

Definition exists_path (p : string) (w : World) : bool :=
  existsb (String.eqb p) (fs w).

(** A path lies under a directory when it is the directory or starts with
    the directory followed by the separator. *)
Definition under (dir p : string) : bool :=
  String.eqb p dir || String.prefix (dir +:+ "/") p.

(** The directories above a path: its prefixes that end right before a
    separator. [pre] is the part of the path already read. *)
Fixpoint dirsAbove (pre rest : string) : list string :=
  match rest with
  | EmptyString => []
  | String c rest' =>
      (if Ascii.eqb c "/" && negb (String.eqb pre EmptyString) then [pre] else [])
      ++ dirsAbove (pre +:+ String c EmptyString) rest'
  end.

Definition parents (path : string) : list string := dirsAbove EmptyString path.

End World.

(** ** The render service *)

Module Service.
Import Js Planner World.

(** [defaultJobOptions] of the queue. The queue keeps the last 10
    completed and the last 5 failed jobs, so a job that has just ended is
    still held by the queue. *)
Definition removeOnComplete : nat := 10.
Definition removeOnFail : nat := 5.
Definition attempts : nat := 3.
Definition backoffDelay : Z := 5000.

(** The delay the queue waits after [made] failed attempts, for the
    [exponential] backoff type: [2^(made-1) * delay]. *)
Definition backoff (made : nat) : Z := 2 ^ (Z.of_nat made - 1) * backoffDelay.

(** [updateJobStatus]: one update of the row with this id, when there is
    one. A [metadata] that is [undefined] leaves the column as it is. *)
Definition updateJobStatus (jobId : string) (s : Status) (md : option Metadata) : M unit :=
  fun w =>
    let upd (r : Row) :=
      {| project_id := project_id r; user_id := user_id r; status := s;
         r_settings := r_settings r;
         metadata := match md with Some m => Some m | None => metadata r end |} in
    (Ok tt, emit (EvStatus jobId s) (setDb (alter upd jobId (db w)) w)).

(** [job.updateProgress(p)] *)
Definition updateProgress (jobId : string) (p : Q) : M unit :=
  fun w =>
    let upd (j : QJob) :=
      {| data := data j; state := state j; progress := p;
         attemptsMade := attemptsMade j; priority := priority j;
         failedReason := failedReason j; returnvalue := returnvalue j |} in
    (Ok tt, emit (EvProgress jobId p) (setQueue (alter upd jobId (queue w)) w)).

Definition addPath (p : string) (w : World) : World :=
  if exists_path p w then w else setFs (fs w ++ [p]) w.

(** [fs.mkdir(path, { recursive: true })]: the directory is created, and
    with it every directory above it that is missing. *)
Definition mkdir (path : string) : M unit :=
  fun w =>
    (Ok tt,
     emit (EvMkdir path)
       (fold_left (fun w' dir => addPath dir w') (parents path ++ [path]) w)).

(** [fs.writeFile(path, contents)] *)
Definition writeFile (path contents : string) : M unit :=
  fun w => (Ok tt, emit (EvWriteFile path contents) (addPath path w)).

(** [fs.readFile(path)]: only whether the file is there matters. *)
Definition readFile (path : string) : M unit :=
  fun w =>
    if exists_path path w then (Ok tt, w)
    else (Throw "ENOENT: no such file or directory", w).

(** [fs.stat(path)] with [.size] taken. *)
Definition stat (env : Env) (path : string) : M Z :=
  fun w =>
    let w1 := emit (EvStat path) w in
    if exists_path path w then (Ok (fileSize env path), w1)
    else (Throw "ENOENT: no such file or directory", w1).

(** [fs.rm(dir, { recursive: true, force: true })] *)
Definition rm (env : Env) (attempt : nat) (dir : string) : M unit :=
  fun w =>
    let w1 := emit (EvRm dir) w in
    if rmRefused env attempt then (Throw "EACCES: permission denied", w1)
    else (Ok tt, setFs (List.filter (fun p => negb (under dir p)) (fs w1)) w1).

(** [renderScene]: the command is built, then run. An error thrown while
    the command is built rejects the promise before the tool is started;
    otherwise the promise resolves with the scene file or rejects with the
    tool's error. *)
Definition renderScene (env : Env) (attempt : nat) (scene : Scene)
    (st : RenderSettings) (workDir : string) (sceneIndex : Z) : M string :=
  fun w =>
    match fst (planScene scene st workDir sceneIndex) with
    | Throw err => (Throw err, w)
    | Ok cmd =>
        let w1 := emit (EvRenderScene cmd) w in
        match ffmpegScene env attempt cmd with
        | None => (Ok (c_output cmd), addPath (c_output cmd) w1)
        | Some err => (Throw err, w1)
        end
    end.

Definition newline : string := String (ascii_of_nat 10) EmptyString.

Definition concatOutput (workDir format : string) : string :=
  pathJoin workDir ("final_output." +:+ format).

(** The list handed to the concat demuxer: one [file '...'] line per
    scene file. *)
Definition fileListOf (sceneFiles : list string) : string :=
  join newline (map (fun file => "file '" +:+ file +:+ "'") sceneFiles).

(** The concatenation run: the promise resolves with the output file or
    rejects with the tool's error. *)
Definition runConcat (env : Env) (attempt : nat) (listFile outputFile : string) : M string :=
  fun w =>
    let w1 := emit (EvConcat listFile outputFile) w in
    match ffmpegConcat env attempt listFile outputFile with
    | None => (Ok outputFile, addPath outputFile w1)
    | Some err => (Throw err, w1)
    end.

Definition concatenateScenes (env : Env) (attempt : nat) (sceneFiles : list string)
    (st : RenderSettings) (workDir format : string) : M string :=
  let outputFile := concatOutput workDir format in
  let listFile := pathJoin workDir "scenes.txt" in
  let fileList := fileListOf sceneFiles in
  writeFile listFile fileList ;;
  runConcat env attempt listFile outputFile.

Definition uploadName (env : Env) (attempt : nat) (projectId : string) : string :=
  projectId +:+ "_" +:+ show (now env attempt) +:+ ".mp4".

(** [this.supabase.uploadFile(bucket, fileName, buffer, contentType)] *)
Definition storeUpload (env : Env) (attempt : nat) (bucket fileName contentType : string)
    : M string :=
  fun w =>
    (uploadFile env attempt bucket fileName contentType,
     emit (EvUpload bucket fileName contentType) w).

Definition uploadFinalVideo (env : Env) (attempt : nat) (filePath projectId userId : string)
    : M string :=
  let fileName := uploadName env attempt projectId in
  readFile filePath ;;
  storeUpload env attempt "videos" fileName "video/mp4".

(** [cleanup]: the removal, with any error of it caught and logged. *)
Definition cleanup (env : Env) (attempt : nat) (workDir : string) : M unit :=
  try_catch (rm env attempt workDir) (fun _ => ret tt).

(** The loop over the scenes of [processRenderJob]; [n] is
    [scenes.length] and [i] the index of the head of [scs]. *)
Fixpoint renderScenes (env : Env) (attempt : nat) (jobId : string)
    (st : RenderSettings) (workDir : string) (n i : Z) (scs : list Scene)
    (sceneFiles : list string) : M (list string) :=
  match scs with
  | [] => ret sceneFiles
  | scene :: rest =>
      sceneFile <- renderScene env attempt scene st workDir i ;;
      updateProgress jobId (5 + (inject_Z i / inject_Z n) * 80)%Q ;;
      renderScenes env attempt jobId st workDir n (i + 1) rest (sceneFiles ++ [sceneFile])
  end.

Definition workDirOf (env : Env) (jobId : string) : string :=
  pathJoin (tempDir env) ("render_" +:+ jobId).

(** [processRenderJob]: one attempt at a job. *)
Definition processRenderJob (env : Env) (attempt : nat) (jobId : string)
    (job : RenderJob) : M Return :=
  try_catch
    (updateJobStatus jobId processing None ;;
     updateProgress jobId 5%Q ;;
     let workDir := workDirOf env jobId in
     mkdir workDir ;;
     sceneFiles <- renderScenes env attempt jobId (settings job) workDir
                     (Z.of_nat (length (scenes job))) 0 (scenes job) [] ;;
     updateProgress jobId 85%Q ;;
     finalOutput <- concatenateScenes env attempt sceneFiles (settings job) workDir
                      (outputFormat job) ;;
     updateProgress jobId 95%Q ;;
     publicUrl <- uploadFinalVideo env attempt finalOutput (projectId job) (userId job) ;;
     cleanup env attempt workDir ;;
     updateProgress jobId 100%Q ;;
     size <- stat env finalOutput ;;
     updateJobStatus jobId completed (Some (MdCompleted publicUrl size)) ;;
     ret {| success := true; outputUrl := publicUrl;
            ret_projectId := projectId job; ret_jobId := jobId |})
    (fun error =>
       updateJobStatus jobId failed (Some (MdFailed error)) ;;
       throw error).

(** The state the queue gives a job added without delay ([delay: 0]):
    BullMQ, from its version 4 on, keeps a job whose priority is above 0
    among the prioritized jobs, and [job.getState()] says so; a job
    without priority is waiting. *)
Definition addedState (priority : Z) : QState :=
  if 0 <? priority then q_prioritized else q_waiting.

(** [queueRender]: the job enters the queue under a fresh id with the
    priority of [settings.quality] and no progress yet, and its row is
    inserted with status queued. *)
Definition queueRender (renderJob : RenderJob) : M string :=
  fun w =>
    let jobId := show (nextId w) in
    let priority := getPriority (rs_quality (settings renderJob)) in
    let job :=
      {| data := renderJob; state := addedState priority; progress := 0%Q;
         attemptsMade := 0%nat; priority := priority;
         failedReason := None; returnvalue := None |} in
    let row :=
      {| project_id := projectId renderJob; user_id := userId renderJob;
         status := queued; r_settings := settings renderJob; metadata := None |} in
    (Ok jobId,
     {| fs := fs w; db := <[jobId := row]> (db w); queue := <[jobId := job]> (queue w);
        nextId := nextId w + 1; log := log w |}).

Record RenderStatus := {
  rs_id : string;
  rs_status : QState;
  rs_progress : Q;
  rs_failedReason : option string;
  rs_returnValue : option Return
}.

(** [getRenderStatus] *)
Definition getRenderStatus (jobId : string) : M RenderStatus :=
  fun w =>
    match queue w !! jobId with
    | None => (Throw "Render job not found", w)
    | Some job =>
        (Ok {| rs_id := jobId; rs_status := state job; rs_progress := progress job;
               rs_failedReason := failedReason job; rs_returnValue := returnvalue job |}, w)
    end.

(** [job.remove()]: the queue refuses to remove a job a worker holds. *)
Definition removeJob (jobId : string) (job : QJob) : M unit :=
  fun w =>
    match state job with
    | q_active => (Throw "Job could not be removed because it is locked by another worker", w)
    | _ => (Ok tt, setQueue (delete jobId (queue w)) w)
    end.

(** [update({ status: 'cancelled' }).eq('id', jobId)] *)
Definition markCancelled (jobId : string) : M unit :=
  fun w =>
    let upd (r : Row) :=
      {| project_id := project_id r; user_id := user_id r; status := cancelled;
         r_settings := r_settings r; metadata := metadata r |} in
    (Ok tt, emit (EvStatus jobId cancelled) (setDb (alter upd jobId (db w)) w)).

(** [cancelRender] *)
Definition cancelRender (jobId : string) : M bool :=
  fun w =>
    match queue w !! jobId with
    | None => (Throw "Render job not found", w)
    | Some job =>
        (removeJob jobId job ;;
         markCancelled jobId ;;
         ret true) w
    end.

(** The queue's bookkeeping around an attempt. *)
Definition setJob (jobId : string) (s : QState) (made : nat) (reason : option string)
    (rv : option Return) (w : World) : World :=
  let upd (j : QJob) :=
    {| data := data j; state := s; progress := progress j; attemptsMade := made;
       priority := priority j;
       failedReason := match reason with Some r => Some r | None => failedReason j end;
       returnvalue := match rv with Some r => Some r | None => returnvalue j end |} in
  setQueue (alter upd jobId (queue w)) w.

(** The worker on one job: the processor is called; when it throws and
    fewer than [attempts] attempts were made, the job is delayed by the
    backoff and tried again; otherwise it ends failed. [left] is the
    number of attempts that remain, [made] the number already made. *)
Fixpoint runAttempts (env : Env) (left made : nat) (jobId : string) (job : RenderJob)
    (w : World) : World :=
  match left with
  | O => w
  | S left' =>
      match processRenderJob env (S made) jobId job (setJob jobId q_active made None None w) with
      | (Ok r, w') => setJob jobId q_completed (S made) None (Some r) w'
      | (Throw err, w') =>
          match left' with
          | O => setJob jobId q_failed (S made) (Some err) None w'
          | S _ =>
              runAttempts env left' (S made) jobId job
                (emit (EvBackoff (backoff (S made)))
                   (setJob jobId q_delayed (S made) (Some err) None w'))
          end
      end
  end.

(** A job no worker has taken yet. *)
Definition pending (s : QState) : bool :=
  match s with
  | q_waiting | q_prioritized => true
  | _ => false
  end.

(** The worker takes a pending job of the queue and works on it. *)
Definition runJob (env : Env) (jobId : string) (w : World) : World :=
  match queue w !! jobId with
  | Some job =>
      if pending (state job) then runAttempts env attempts 0 jobId (data job) w
      else w
  | None => w
  end.

End Service.

(** ** Request validation: [renderJobSchema] *)

Module Schema.

(** [Joi.string()]: a string, and not the empty one. *)
Definition joiString (s : string) : bool := negb (String.eqb s EmptyString).

(** [Joi.string().optional()] *)
Definition joiStringOpt (s : option string) : bool :=
  match s with
  | Some s' => joiString s'
  | None => true
  end.

Definition layerSchema (l : Layer) : bool :=
  joiString (id l)
  && (0 <=? startTime l)
  && (0 <? duration l)
  && (0 <? width l)
  && (0 <? height l)
  && joiStringOpt (content l)
  && joiStringOpt (source l).

Definition transitionSchema (t : Transition) : bool := 0 <? t_duration t.

Definition sceneSchema (sc : Scene) : bool :=
  joiString (s_id sc)
  && (0 <? s_duration sc)
  && forallb layerSchema (layers sc)
  && match transitions sc with
     | Some ts => forallb transitionSchema ts
     | None => true
     end.

Definition oneOf (allowed : list string) (s : string) : bool :=
  existsb (String.eqb s) allowed.

Definition qualities : list string := ["draft"; "standard"; "high"; "ultra"].
Definition formats : list string := ["mp4"; "mov"; "avi"; "webm"].

Definition settingsSchema (st : RenderSettings) : bool :=
  (0 <? rs_width st)
  && (0 <? rs_height st)
  && (0 <? frameRate st)
  && joiStringOpt (bitrate st)
  && match audioSampleRate st with Some r => 0 <? r | None => true end
  && oneOf qualities (rs_quality st).

Definition renderJobSchema (job : RenderJob) : bool :=
  joiString (projectId job)
  && negb (match scenes job with [] => true | _ => false end)
  && forallb sceneSchema (scenes job)
  && settingsSchema (settings job)
  && oneOf formats (outputFormat job)
  && oneOf qualities (quality job).

End Schema.

(** ** Reading a plan and a trace *)

Module Views.
Import Js Planner World Service.



(** An operation of the plan: the layer it draws and the filter text
    emitted for it. *)
Record Op := {
  op_layer : Layer;
  op_text : string
}.

(** The operation one turn of the loop appends, if any. *)
Definition emitted (st : RenderSettings) (acc : Acc) (l : Layer) : option Op :=
  match type l with
  | image => Some {| op_layer := l; op_text := getImageFilter l (inputIndex acc) st |}
  | video => Some {| op_layer := l; op_text := getVideoFilter l (inputIndex acc) st |}
  | text => Some {| op_layer := l; op_text := getTextFilter l st |}
  | audio => None
  end.

(** The operations of the turns of the loop, up to the first turn that
    throws. *)
Fixpoint opsFrom (st : RenderSettings) (acc : Acc) (ls : list Layer) : list Op :=
  match ls with
  | [] => []
  | l :: ls' =>
      match layerStep st acc l with
      | Ok acc' =>
          match emitted st acc l with
          | Some o => o :: opsFrom st acc' ls'
          | None => opsFrom st acc' ls'
          end
      | Throw _ => []
      end
  end.

(** The operations of a scene's plan, in the order of the plan. *)
Definition operations (sc : Scene) (st : RenderSettings) : list Op :=
  opsFrom st (initAcc sc st) (sortedLayers (layers sc)).

Fixpoint concatTexts (os : list Op) : string :=
  match os with
  | [] => EmptyString
  | o :: os' => op_text o +:+ concatTexts os'
  end.

(** *** The media tool's reading of a filter description *)

(** The media tool's tokenizer on a filter description: outside quotes a
    backslash protects the next character and an apostrophe opens a quoted
    run; inside a quoted run nothing is special but the next apostrophe,
    which ends the run. *)
Inductive Mode := Plain | Escaped | Quoted.

(** The characters the tokenizer reads unprotected. *)
Fixpoint exposed (m : Mode) (s : string) : list ascii :=
  match s with
  | EmptyString => []
  | String c s' =>
      match m with
      | Plain =>
          if Ascii.eqb c "\" then exposed Escaped s'
          else if Ascii.eqb c "'" then exposed Quoted s'
          else c :: exposed Plain s'
      | Escaped => exposed Plain s'
      | Quoted =>
          if Ascii.eqb c "'" then exposed Plain s' else exposed Quoted s'
      end
  end.

Definition isSeparator (c : ascii) : bool :=
  Ascii.eqb c "," || Ascii.eqb c ";" || Ascii.eqb c "[" || Ascii.eqb c "]".

(** The separators of the filter graph that a description exposes. *)
Definition separators (s : string) : list ascii :=
  List.filter isSeparator (exposed Plain s).

(** A draw operation is one filter: the only separator it exposes is the
    semicolon that ends it. *)
Definition oneFilter (s : string) : bool :=
  match separators s with
  | [c] => Ascii.eqb c ";"
  | _ => false
  end.

(** The description cut at the separators it exposes: each separator,
    and each run of text between separators with its quotes and escapes
    removed. *)
Inductive Token := Word (s : string) | Mark (c : ascii).

Definition addChar (c : ascii) (ts : list Token) : list Token :=
  match ts with
  | Word s :: ts' => Word (String c s) :: ts'
  | _ => Word (String c EmptyString) :: ts
  end.

Fixpoint tokens (m : Mode) (s : string) : list Token :=
  match s with
  | EmptyString => []
  | String c s' =>
      match m with
      | Plain =>
          if Ascii.eqb c "\" then tokens Escaped s'
          else if Ascii.eqb c "'" then tokens Quoted s'
          else if isSeparator c then Mark c :: tokens Plain s'
          else addChar c (tokens Plain s')
      | Escaped => addChar c (tokens Plain s')
      | Quoted =>
          if Ascii.eqb c "'" then tokens Plain s' else addChar c (tokens Quoted s')
      end
  end.











(** The arguments of a filter are read a second time, cut at the colons
    they expose: the pieces between unprotected colons, each with its
    quotes and escapes removed. *)
Definition pushChar (c : ascii) (ps : list string) : list string :=
  match ps with
  | p :: ps' => String c p :: ps'
  | [] => [String c EmptyString]
  end.

Fixpoint pieces (m : Mode) (s : string) : list string :=
  match s with
  | EmptyString => [EmptyString]
  | String c s' =>
      match m with
      | Plain =>
          if Ascii.eqb c "\" then pieces Escaped s'
          else if Ascii.eqb c "'" then pieces Quoted s'
          else if Ascii.eqb c ":" then EmptyString :: pieces Plain s'
          else pushChar c (pieces Plain s')
      | Escaped => pushChar c (pieces Plain s')
      | Quoted =>
          if Ascii.eqb c "'" then pieces Plain s' else pushChar c (pieces Quoted s')
      end
  end.









(** The order of the plan. *)
Definition byStartThenZ (a b : Layer) : Prop :=
  startTime a < startTime b \/ (startTime a = startTime b /\ zIndexOf a <= zIndexOf b).

(** The order the specification asks for, with the id as last key. *)
Definition byStartThenZThenId (a b : Layer) : Prop :=
  startTime a < startTime b \/
  (startTime a = startTime b /\
   (zIndexOf a < zIndexOf b \/
    (zIndexOf a = zIndexOf b /\ String.leb (id a) (id b) = true))).

Definition sameKey (s z : Z) (l : Layer) : bool :=
  (startTime l =? s) && (zIndexOf l =? z).

(** [s] ends with [suffix]. *)
Fixpoint ends_with (s suffix : string) : bool :=
  String.eqb s suffix ||
  match s with
  | EmptyString => false
  | String _ s' => ends_with s' suffix
  end.

(** Projections of a trace. *)
Definition progressOf (evs : list Event) : list Q :=
  omap (fun ev => match ev with EvProgress _ p => Some p | _ => None end) evs.

Definition isControl (ev : Event) : bool :=
  match ev with
  | EvStatus _ _ | EvBackoff _ => true
  | _ => false
  end.

(** The status writes and the backoff waits of a trace. *)
Definition controlOf (evs : list Event) : list Event := List.filter isControl evs.

(** The progress reported after scene [i] of [n]. *)
Definition sceneProgress (i n : Z) : Q := (5 + (inject_Z i / inject_Z n) * 80)%Q.

(** The events of the scene loop when the media tool fails on no scene:
    for each scene the run of its command and the progress report, up to
    the first scene whose command cannot be built. *)
Fixpoint sceneScript (jobId : string) (st : RenderSettings) (workDir : string)
    (n i : Z) (scs : list Scene) : list Event :=
  match scs with
  | [] => []
  | sc :: rest =>
      match fst (planScene sc st workDir i) with
      | Ok cmd =>
          EvRenderScene cmd
          :: EvProgress jobId (5 + (inject_Z i / inject_Z n) * 80)%Q
          :: sceneScript jobId st workDir n (i + 1) rest
      | Throw _ => []
      end
  end.

(** Whether the command of every scene can be built. *)
Fixpoint allPlanned (st : RenderSettings) (workDir : string) (i : Z) (scs : list Scene)
    : bool :=
  match scs with
  | [] => true
  | sc :: rest =>
      match fst (planScene sc st workDir i) with
      | Ok _ => allPlanned st workDir (i + 1) rest
      | Throw _ => false
      end
  end.

Fixpoint sceneOutputs (workDir : string) (i : Z) (scs : list Scene) : list string :=
  match scs with
  | [] => []
  | _ :: rest => sceneOutput workDir i :: sceneOutputs workDir (i + 1) rest
  end.

(** The events of one attempt between the first status write and the
    last, when nothing outside the service fails: the steps after the
    scene loop are reached only when every scene had a command. *)
Definition bodyScript (env : Env) (attempt : nat) (jobId : string) (job : RenderJob)
    : list Event :=
  let workDir := workDirOf env jobId in
  let listFile := pathJoin workDir "scenes.txt" in
  let finalOutput := concatOutput workDir (outputFormat job) in
  [EvProgress jobId 5%Q; EvMkdir workDir]
  ++ sceneScript jobId (settings job) workDir (Z.of_nat (length (scenes job))) 0 (scenes job)
  ++ (if allPlanned (settings job) workDir 0 (scenes job)
      then [EvProgress jobId 85%Q;
            EvWriteFile listFile (fileListOf (sceneOutputs workDir 0 (scenes job)));
            EvConcat listFile finalOutput;
            EvProgress jobId 95%Q;
            EvUpload "videos" (uploadName env attempt (projectId job)) "video/mp4";
            EvRm workDir;
            EvProgress jobId 100%Q;
            EvStat finalOutput]
      else []).

(** The progress values reported after each of [len] scenes in a row,
    the first of them scene [i] of [n]. *)
Definition sceneValues (n i : Z) (len : nat) : list Q :=
  map (fun k => sceneProgress (i + Z.of_nat k) n) (seq 0 len).

(** A result in [good] with the events [done], or an exception after a
    first part of the events [upto]. *)
Definition segment {A} (good : A -> Prop) (done upto : list Event)
    (r : Result A) (evs : list Event) : Prop :=
  match r with
  | Ok a => good a /\ evs = done
  | Throw _ => evs `prefix_of` upto
  end.

(** A computation only appends to the trace, and its result and the
    events it appends satisfy [post]. *)
Definition runs {A} (m : M A) (post : Result A -> list Event -> Prop) : Prop :=
  forall w, exists evs, log (snd (m w)) = log w ++ evs /\ post (fst (m w)) evs.

(** Progress values that never go down and stay between two bounds. *)
Definition climbs (lo hi : Q) (ps : list Q) : Prop :=
  StronglySorted Qle ps /\ Forall (fun p => (lo <= p)%Q /\ (p <= hi)%Q) ps.

(** The events of one upload and one concatenation, as the claim on the
    published name reads them. *)
Definition publishedAsMp4 (workDir format : string) (ev : Event) : Prop :=
  match ev with
  | EvUpload bucket fileName contentType =>
      bucket = "videos" /\ ends_with fileName ".mp4" = true /\ contentType = "video/mp4"
  | EvConcat _ outputFile =>
      outputFile = pathJoin workDir ("final_output." +:+ format)
  | _ => True
  end.

End Views.

(** ** Sample projects, environments and worlds *)

Module Samples.
Import Js Planner World Service.

Definition settings720 : RenderSettings :=
  {| rs_width := 1280; rs_height := 720; frameRate := 30; bitrate := None;
     audioSampleRate := None; rs_quality := "standard" |}.

Definition mkLayer (i : string) (ty : LayerType) (start dur : Z)
    (c src : option string) (st : option Style) : Layer :=
  {| id := i; type := ty; startTime := start; duration := dur; x := 0; y := 0;
     width := 100; height := 50; content := c; source := src; style := st |}.

Definition mkScene (d : Z) (ls : list Layer) : Scene :=
  {| s_id := "scene"; s_duration := d; layers := ls; transitions := None |}.

Definition mkJob (fmt : string) (scs : list Scene) : RenderJob :=
  {| projectId := "p"; userId := "u"; scenes := scs; settings := settings720;
     outputFormat := fmt; quality := "standard" |}.

(** An image that starts after the end of its scene. *)
Definition lateImage : Layer := mkLayer "late" image 5 2 None (Some "a.png") None.
Definition lateScene : Scene := mkScene 3 [lateImage].

(** Two layers with the same start and the same z-index, ids in
    descending order. *)
Definition layerB : Layer := mkLayer "b" text 0 5 (Some "B") None None.
Definition layerA : Layer := mkLayer "a" text 0 5 (Some "A") None None.

(** A text with an apostrophe, and one without. *)
Definition itsLayer : Layer := mkLayer "t" text 0 5 (Some "it's") None None.
Definition helloLayer : Layer := mkLayer "h" text 0 10 (Some "Hello") None None.

Definition helloJob : RenderJob := mkJob "webm" [mkScene 10 [helloLayer]].

(** A text whose style gives the font size as a text with a comma. *)
Definition sizedLayer : Layer :=
  mkLayer "s" text 0 5 (Some "Hello") None
    (Some {| zIndex := None; fontSize := Some (VStr "24,boxblur"); color := None |}).

(** An image layer without [source], and one with the empty [source]. *)
Definition noSourceLayer : Layer := mkLayer "img" image 0 5 None None None.
Definition noSourceJob : RenderJob := mkJob "mp4" [mkScene 5 [noSourceLayer]].
Definition emptySourceJob : RenderJob :=
  mkJob "mp4" [mkScene 5 [mkLayer "img" image 0 5 None (Some EmptyString) None]].

(** Everything outside the service works. *)
Definition envOk : Env :=
  {| tempDir := "/app/temp";
     ffmpegScene := fun _ _ => None;
     ffmpegConcat := fun _ _ _ => None;
     uploadFile := fun _ _ fileName _ => Ok ("https://store/videos/" +:+ fileName);
     rmRefused := fun _ => false;
     fileSize := fun _ => 1000;
     now := fun attempt => 1700000000000 + Z.of_nat attempt |}.

(** The media tool fails on every scene. *)
Definition envSceneFails : Env :=
  {| tempDir := "/app/temp";
     ffmpegScene := fun _ _ => Some "ffmpeg exited with code 1";
     ffmpegConcat := fun _ _ _ => None;
     uploadFile := fun _ _ fileName _ => Ok ("https://store/videos/" +:+ fileName);
     rmRefused := fun _ => false;
     fileSize := fun _ => 1000;
     now := fun attempt => 1700000000000 + Z.of_nat attempt |}.

(** The media tool fails on every concatenation. *)
Definition envConcatFails : Env :=
  {| tempDir := "/app/temp";
     ffmpegScene := fun _ _ => None;
     ffmpegConcat := fun _ _ _ => Some "ffmpeg exited with code 1";
     uploadFile := fun _ _ fileName _ => Ok ("https://store/videos/" +:+ fileName);
     rmRefused := fun _ => false;
     fileSize := fun _ => 1000;
     now := fun attempt => 1700000000000 + Z.of_nat attempt |}.

(** The removal of the working directory is refused. *)
Definition envRmRefused : Env :=
  {| tempDir := "/app/temp";
     ffmpegScene := fun _ _ => None;
     ffmpegConcat := fun _ _ _ => None;
     uploadFile := fun _ _ fileName _ => Ok ("https://store/videos/" +:+ fileName);
     rmRefused := fun _ => true;
     fileSize := fun _ => 1000;
     now := fun attempt => 1700000000000 + Z.of_nat attempt |}.

Definition emptyWorld : World :=
  {| fs := []; db := ∅; queue := ∅; nextId := 1; log := [] |}.

(** The world after [queueRender] of a job: its id is ["1"]. *)
Definition queuedWorld (job : RenderJob) : World := snd (queueRender job emptyWorld).

End Samples.

(** ** Further readings of a plan *)

Module PlanReading.
Import Js Planner Views.

Definition isAudio (l : Layer) : bool :=
  match type l with
  | audio => true
  | _ => false
  end.

Definition isText (l : Layer) : bool :=
  match type l with
  | text => true
  | _ => false
  end.

(** The layers that are drawn: all but the audio layers. *)
Definition drawn (ls : list Layer) : list Layer :=
  List.filter (fun l => negb (isAudio l)) ls.

(** The layers that bring an input file: all but the text layers. *)
Definition media (ls : list Layer) : list Layer :=
  List.filter (fun l => negb (isText l)) ls.

(** Every character of [s] satisfies [p]. *)
Fixpoint allChars (p : ascii -> bool) (s : string) : bool :=
  match s with
  | EmptyString => true
  | String c s' => p c && allChars p s'
  end.

Definition notApostrophe (c : ascii) : bool := negb (Ascii.eqb c "'").

(** A character the tokenizer gives no meaning to. *)
Definition ordinary (c : ascii) : bool :=
  negb (Ascii.eqb c "\") && negb (Ascii.eqb c "'") && negb (isSeparator c).

Fixpoint countChar (c : ascii) (s : string) : nat :=
  match s with
  | EmptyString => O
  | String a s' => (if Ascii.eqb a c then 1 else 0) + countChar c s'
  end.

(** Every apostrophe of [s] comes right after a backslash; [after] tells
    whether the character before [s] is a backslash. *)
Fixpoint guarded (after : bool) (s : string) : bool :=
  match s with
  | EmptyString => true
  | String c s' =>
      if Ascii.eqb c "'" then after && guarded false s'
      else guarded (Ascii.eqb c "\") s'
  end.

(** The separators a description exposes when read from mode [m]. *)
Definition separatorsFrom (m : Mode) (s : string) : list ascii :=
  List.filter isSeparator (exposed m s).

(** Whether a layer comes with a source. *)
Definition hasSource (l : Layer) : bool :=
  match source l with
  | Some _ => true
  | None => false
  end.

(** The input a layer's source makes. *)
Definition inputOf (l : Layer) : option Input :=
  match source l with
  | Some src => Some {| in_source := src; in_format := None |}
  | None => None
  end.

(** A scene all of whose image, video and audio layers come with a
    source. *)
Definition sourced (sc : Scene) : bool := forallb hasSource (media (layers sc)).

(** The three texts a text filter takes from the layer. *)
Definition contentText (l : Layer) : string := jsor_str (content l) "Text".

Definition fontSizeText (l : Layer) : string :=
  toString (jsor_val (style l ≫= fontSize) (VNum 24)).

Definition fontColorText (l : Layer) : string :=
  toString (jsor_val (style l ≫= color) (VStr "white")).

(** A character that neither reading of the tool gives a meaning to. *)
Definition bare (c : ascii) : bool := ordinary c && negb (Ascii.eqb c ":").



(** A string put in front of the first token, character by character. *)
Fixpoint addStr (a : string) (ts : list Token) : list Token :=
  match a with
  | EmptyString => ts
  | String c a' => addChar c (addStr a' ts)
  end.

(** The separators among the tokens. *)
Fixpoint marks (ts : list Token) : list ascii :=
  match ts with
  | [] => []
  | Mark c :: ts' => c :: marks ts'
  | Word _ :: ts' => marks ts'
  end.

(** The characters of the text of a number. *)
Definition numeric (c : ascii) : bool :=
  existsb (Ascii.eqb c) (list_ascii_of_string "0123456789-").


End PlanReading.

(** ** Further readings of a trace and of the state *)

Module TraceReading.
Import Js Planner World Service Views.


(** The lists written for the concatenation. *)
Definition listsOf (evs : list Event) : list string :=
  omap (fun ev => match ev with EvWriteFile _ contents => Some contents | _ => None end) evs.


(** The line of the concat list for scene [i]. *)
Definition listLine (workDir : string) (i : nat) : string :=
  "file '" +:+ workDir +:+ "/scene_" +:+ show (Z.of_nat i) +:+ ".mp4'".

(** A computation that never returns normally. *)
Definition neverReturns {A} (m : M A) : Prop :=
  forall w, exists msg, fst (m w) = Throw msg.

(** A computation that leaves the job table as it is. *)
Definition keepsTable {A} (m : M A) : Prop :=
  forall w, db (snd (m w)) = db w.

(** A computation that, when it returns, has written the status
    [completed] for the job as its only change to the table, and when it
    throws has left the table as it is. *)
Definition completesOrKeeps {A} (jobId : string) (m : M A) : Prop :=
  forall w,
    match fst (m w) with
    | Ok _ =>
        exists g, db (snd (m w)) = alter g jobId (db w) /\
                  forall r, status (g r) = completed
    | Throw _ => db (snd (m w)) = db w
    end.

(** A computation that changes no job's state in the queue and removes
    or adds no job. *)
Definition keepsStates {A} (m : M A) : Prop :=
  forall w jobId,
    state <$> (queue (snd (m w)) !! jobId) = state <$> (queue w !! jobId).

(** A computation that removes paths under [dir] only, and adds only
    paths under [dir] and directories above [dir]. *)
Definition staysUnder {A} (dir : string) (m : M A) : Prop :=
  forall w p, under dir p = false ->
    (In p (fs w) -> In p (fs (snd (m w)))) /\
    (In p (fs (snd (m w))) -> In p (fs w) \/ In p (parents dir)).

End TraceReading.

(** ** Helpers of the AI service (services/ai-service.ts)

    The tables of that file are plain objects read with [table[key] || d];
    the embedding reads them as finite maps, which is what the code does
    for every key that is not a property name of [Object.prototype]. *)

Module Ai.
Import Js World.

(** The property names every plain object inherits. *)
Definition inheritedKeys : list string :=
  ["constructor"; "hasOwnProperty"; "isPrototypeOf"; "propertyIsEnumerable";
   "toLocaleString"; "toString"; "valueOf"; "__proto__"; "__defineGetter__";
   "__defineSetter__"; "__lookupGetter__"; "__lookupSetter__"].

Definition ownKey (key : string) : bool :=
  negb (existsb (String.eqb key) inheritedKeys).

(** The names [generateTransitions] cycles through. *)
Definition transitionNames : list TransitionType := [fade; cut; slide; zoom; wipe].

(** [generateTransitions]: [null] for the last scene, removed by
    [filter(Boolean)]. *)
Definition generateTransitions {A} (scenes : list A) : list TransitionType :=
  omap (fun t => t)
    (imap (fun index _ =>
             if Z.of_nat index =? Z.of_nat (length scenes) - 1 then None
             else transitionNames !! (index mod 5)%nat)
          scenes).

(** A row of [ai_usage], as far as the code reads it. *)
Record UsageRecord := {
  u_user_id : string;
  operation : string
}.

(** [aggregateUsage] *)
Definition aggregateUsage (usageData : list UsageRecord) : gmap string Z :=
  fold_left
    (fun aggregated record =>
       <[operation record := jsor (default 0 (aggregated !! operation record)) 0 + 1]>
         aggregated)
    usageData ∅.

Definition tierLimits (script storyboard voice subtitle : Z) : gmap string Z :=
  <["script_generation" := script]>
    (<["storyboard_generation" := storyboard]>
       (<["voice_generation" := voice]>
          (<["subtitle_generation" := subtitle]> ∅))).

(** [getLimitsByTier]: the table of the tier, the free one for a tier
    that is not in the table. *)
Definition getLimitsByTier (tier : string) : gmap string Z :=
  if String.eqb tier "free" then tierLimits 5 3 10 5
  else if String.eqb tier "pro" then tierLimits 50 30 100 50
  else if String.eqb tier "enterprise" then tierLimits 500 300 1000 500
  else tierLimits 5 3 10 5.

(** [getUserUsage], on the answer of the query: the rows of the last 30
    days, or [None] when the query failed. *)
Definition getUserUsage (answer : option (list UsageRecord)) : gmap string Z :=
  match answer with
  | Some data => aggregateUsage data
  | None => ∅
  end.

(** [getUserLimits], on the [subscription_tier] of the user, if any. *)
Definition getUserLimits (tier : option string) : gmap string Z :=
  getLimitsByTier (jsor_str tier "free").

(** [checkUserLimits] *)
Definition checkUserLimits (answer : option (list UsageRecord)) (tier : option string)
    (op : string) : Result unit :=
  let usage := getUserUsage answer in
  let limits := getUserLimits tier in
  let currentUsage := jsor (default 0 (usage !! op)) 0 in
  let limit := jsor (default 0 (limits !! op)) 0 in
  if limit <=? currentUsage
  then Throw ("Usage limit exceeded for " +:+ op
              +:+ ". Upgrade your plan for higher limits.")
  else Ok tt.

(** The number of rows of an operation. *)
Definition countOf (op : string) (usageData : list UsageRecord) : Z :=
  Z.of_nat (length (List.filter (fun r => String.eqb (operation r) op) usageData)).

(** The limit [checkUserLimits] reads for an operation. *)
Definition limitOf (tier : option string) (op : string) : Z :=
  jsor (default 0 (getUserLimits tier !! op)) 0.

(** The operations the limits tables name. *)
Definition limitedOperations : list string :=
  ["script_generation"; "storyboard_generation"; "voice_generation";
   "subtitle_generation"].

(** [s.padStart(n, c)] for a one-character pad. *)
Fixpoint pad (k : nat) (c : ascii) (s : string) : string :=
  match k with
  | O => s
  | S k' => String c (pad k' c s)
  end.

Definition padStart (n : nat) (c : ascii) (s : string) : string :=
  pad (n - String.length s) c s.

(** [formatTimestamp] on a whole number of seconds. *)
Definition formatTimestamp (seconds : Z) : string :=
  let hours := seconds / 3600 in
  let minutes := Z.rem seconds 3600 / 60 in
  let secs := Z.rem seconds 60 in
  let ms := Z.rem seconds 1 * 1000 in
  padStart 2 "0" (show hours) +:+ ":" +:+ padStart 2 "0" (show minutes) +:+ ":"
  +:+ padStart 2 "0" (show secs) +:+ "," +:+ padStart 3 "0" (show ms).

End Ai.

(** * Properties *)

(** ** The sort of the layers *)

Section SortFacts.
Context {A : Type} (cmp : A -> A -> Z).

Let le (a b : A) : Prop := cmp a b <= 0.

Lemma insert_sorted_perm x l : Permutation (Js.insert_sorted cmp x l) (x :: l).
Proof.
    induction l as [|y l IH]; simpl; [reflexivity|].
    destruct (cmp x y <=? 0); [reflexivity|].
    rewrite IH. apply perm_swap.
Qed.

Lemma sort_perm l : Permutation (Js.sort cmp l) l.
Proof.
    induction l as [|x l IH]; simpl; [constructor|].
    rewrite insert_sorted_perm. now constructor.
Qed.

  (** An element below all others is inserted in front. *)
Lemma insert_sorted_front x l :
    Forall (le x) l -> Js.insert_sorted cmp x l = x :: l.
Proof.
    destruct l as [|y l]; simpl; [reflexivity|].
    intros H. inversion_clear H as [|? ? Hxy _]. unfold le in Hxy.
    destruct (Z.leb_spec (cmp x y) 0); [reflexivity | lia].
Qed.

  (** The sort leaves a sorted list as it is. *)
Lemma sort_fixed l : StronglySorted le l -> Js.sort cmp l = l.
Proof.
    induction 1 as [|x l Hs IH Hx]; simpl; [reflexivity|].
    rewrite IH. now apply insert_sorted_front.
Qed.

Section Sorted.
Hypothesis cmp_total : forall a b, 0 < cmp a b -> cmp b a <= 0.
Hypothesis cmp_trans : forall a b c, cmp a b <= 0 -> cmp b c <= 0 -> cmp a c <= 0.

Lemma insert_sorted_sorted x l :
      StronglySorted le l -> StronglySorted le (Js.insert_sorted cmp x l).
Proof.
      induction 1 as [|y l Hs IH Hy]; simpl.
      - repeat constructor.
      - destruct (Z.leb_spec (cmp x y) 0) as [Hxy|Hxy].
        + constructor; [now constructor|].
          constructor; [exact Hxy|].
          eapply List.Forall_impl; [|exact Hy]. intros z Hz. unfold le in *. eauto.
        + constructor; [exact IH|].
          rewrite insert_sorted_perm. constructor; [|exact Hy].
          unfold le. auto.
Qed.

Lemma sort_sorted l : StronglySorted le (Js.sort cmp l).
Proof.
      induction l as [|x l IH]; simpl; [constructor|].
      now apply insert_sorted_sorted.
Qed.
End Sorted.

Section Stable.
    (** [P] picks a class of elements none of which sorts strictly after
        another element of the class. *)
Variable P : A -> bool.
Hypothesis P_class : forall a b, P a = true -> 0 < cmp a b -> P b = false.

Lemma insert_sorted_filter x l :
      List.filter P (Js.insert_sorted cmp x l) = List.filter P (x :: l).
Proof.
      induction l as [|y l IH]; [reflexivity|].
      cbn [Js.insert_sorted].
      destruct (Z.leb_spec (cmp x y) 0) as [Hxy|Hxy]; [reflexivity|].
      cbn [List.filter] in *. rewrite IH.
      destruct (P x) eqn:Hx; [|reflexivity].
      now rewrite (P_class x y Hx Hxy).
Qed.

Lemma sort_filter l : List.filter P (Js.sort cmp l) = List.filter P l.
Proof.
      induction l as [|x l IH]; [reflexivity|].
      cbn [Js.sort foldr]. fold (Js.sort cmp l).
      rewrite insert_sorted_filter. cbn [List.filter]. now rewrite IH.
Qed.
End Stable.
End SortFacts.


(** ** The planner *)

Module PlannerFacts.
Import Js Planner Views Samples PlanReading.

Lemma append_assoc (a b c : string) : (a +:+ b) +:+ c = a +:+ (b +:+ c).
Proof.
  induction a as [|ch a IH]; [reflexivity|].
  change (String ch ((a +:+ b) +:+ c) = String ch (a +:+ (b +:+ c))).
  now rewrite IH.
Qed.

Lemma append_empty_r (a : string) : a +:+ EmptyString = a.
Proof.
  induction a as [|ch a IH]; [reflexivity|].
  change (String ch (a +:+ EmptyString) = String ch a).
  now rewrite IH.
Qed.

Lemma compareLayers_le a b : compareLayers a b <= 0 <-> byStartThenZ a b.
Proof.
  unfold compareLayers, byStartThenZ.
  destruct (Z.eqb_spec (startTime a) (startTime b)); simpl; lia.
Qed.

Lemma compareLayers_total a b : 0 < compareLayers a b -> compareLayers b a <= 0.
Proof.
  unfold compareLayers.
  destruct (Z.eqb_spec (startTime a) (startTime b)),
           (Z.eqb_spec (startTime b) (startTime a)); simpl; lia.
Qed.

Lemma compareLayers_trans a b c :
  compareLayers a b <= 0 -> compareLayers b c <= 0 -> compareLayers a c <= 0.
Proof.
  rewrite !compareLayers_le. unfold byStartThenZ. lia.
Qed.

Lemma sameKey_class s z a b :
  sameKey s z a = true -> 0 < compareLayers a b -> sameKey s z b = false.
Proof.
  unfold sameKey, compareLayers. intros Ha Hab.
  apply andb_true_iff in Ha as [Hs Hz].
  apply Z.eqb_eq in Hs. apply Z.eqb_eq in Hz.
  destruct (Z.eqb_spec (startTime a) (startTime b)); simpl in Hab.
  - apply andb_false_iff. right. apply Z.eqb_neq. lia.
  - apply andb_false_iff. left. apply Z.eqb_neq. lia.
Qed.

Lemma StronglySorted_weaken {A} (R S : A -> A -> Prop) l :
  (forall a b, R a b -> S a b) -> StronglySorted R l -> StronglySorted S l.
Proof.
  intros HRS. induction 1 as [|x l Hs IH Hx]; constructor; [exact IH|].
  eapply List.Forall_impl; [|exact Hx]. auto.
Qed.

Lemma sortedLayers_perm ls : Permutation (sortedLayers ls) ls.
Proof. apply sort_perm. Qed.

Lemma sortedLayers_sorted ls :
  StronglySorted (fun a b => compareLayers a b <= 0) (sortedLayers ls).
Proof. apply sort_sorted; [exact compareLayers_total | exact compareLayers_trans]. Qed.

Lemma sortedLayers_twice ls : sortedLayers (sortedLayers ls) = sortedLayers ls.
Proof. apply sort_fixed, sortedLayers_sorted. Qed.

(** C2 (as amended). The planner orders the layers by startTime
    ascending, then by z-index (0 when absent) ascending: the sorted list
    is a rearrangement of the scene's layers in that order. Layers equal
    on both keys keep the order they have in the scene; the id plays no
    part. *)
Theorem plan_order_start_then_z_then_input (ls : list Layer) :
  Permutation (sortedLayers ls) ls /\
  StronglySorted byStartThenZ (sortedLayers ls) /\
  forall s z, List.filter (sameKey s z) (sortedLayers ls) = List.filter (sameKey s z) ls.
Proof.
  split; [apply sortedLayers_perm|]. split.
  - eapply StronglySorted_weaken; [|apply sortedLayers_sorted].
    intros a b. apply compareLayers_le.
  - intros s z. apply sort_filter. apply sameKey_class.
Qed.

(** C2, counterexample. Layers "b" then "a", equal in startTime and
    z-index, stay in that order: the plan is not ordered by id. *)
Lemma plan_order_ignores_id :
  sortedLayers [layerB; layerA] = [layerB; layerA] /\
  ~ StronglySorted byStartThenZThenId (sortedLayers [layerB; layerA]).
Proof.
  split; [reflexivity|].
  intros H. change (sortedLayers [layerB; layerA]) with [layerB; layerA] in H.
  inversion_clear H as [|? ? _ Hall]. inversion_clear Hall as [|? ? Hba _].
  unfold byStartThenZThenId in Hba. cbn in Hba.
  destruct Hba as [Hlt | [_ [Hlt | [_ Hleb]]]]; [lia | lia | discriminate].
Qed.

(** C8. Planning the scene a second time, on the scene as the first run
    left it (its layers sorted in place), yields the same outcome (the
    same command, or the same error) and leaves the scene as it is: the
    plan depends on nothing but the scene, the settings and the output
    place. *)
Theorem planScene_again_same_plan (sc : Scene) (st : RenderSettings)
    (workDir : string) (sceneIndex : Z) :
  planScene (snd (planScene sc st workDir sceneIndex)) st workDir sceneIndex
  = planScene sc st workDir sceneIndex.
Proof.
  unfold planScene. cbn [snd layers s_id s_duration transitions].
  rewrite sortedLayers_twice. reflexivity.
Qed.

(** *** The loop over the layers *)

Lemma layerStep_filterComplex st acc l acc' :
  layerStep st acc l = Ok acc' ->
  filterComplex acc'
  = filterComplex acc +:+ match emitted st acc l with
                          | Some o => op_text o
                          | None => EmptyString
                          end.
Proof.
  unfold layerStep, input, emitted.
  destruct (type l), (source l); intros [= <-]; cbn [filterComplex op_text];
    rewrite ?append_empty_r; reflexivity.
Qed.

(** The filter text the loop ends with is the text of the operations, in
    their order. *)
Lemma layerLoop_filter st ls : forall acc acc',
  layerLoop st acc ls = Ok acc' ->
  filterComplex acc' = filterComplex acc +:+ concatTexts (opsFrom st acc ls).
Proof.
  induction ls as [|l ls IH]; intros acc acc'; cbn [layerLoop opsFrom concatTexts].
  - intros [= <-]. now rewrite append_empty_r.
  - destruct (layerStep st acc l) as [acc1|e] eqn:E; [|discriminate].
    intros H. rewrite (IH _ _ H), (layerStep_filterComplex _ _ _ _ E).
    destruct (emitted st acc l); cbn [concatTexts]; rewrite append_assoc; reflexivity.
Qed.

(** A command that was built comes from a loop that ran to its end. *)
Lemma planScene_command sc st workDir sceneIndex cmd :
  fst (planScene sc st workDir sceneIndex) = Ok cmd ->
  exists acc,
    layerLoop st (initAcc sc st) (sortedLayers (layers sc)) = Ok acc /\
    c_inputs cmd = a_inputs acc /\
    c_complexFilter cmd
    = (if String.eqb (filterComplex acc) EmptyString then None
       else Some (filterComplex acc)) /\
    c_output cmd = sceneOutput workDir sceneIndex.
Proof.
  unfold planScene. cbn [fst].
  destruct (layerLoop st (initAcc sc st) (sortedLayers (layers sc))) as [acc|e];
    [|discriminate].
  intros [= <-]. exists acc. repeat split.
Qed.

Lemma planScene_filter sc st workDir sceneIndex cmd :
  fst (planScene sc st workDir sceneIndex) = Ok cmd ->
  c_complexFilter cmd
  = if String.eqb (concatTexts (operations sc st)) EmptyString then None
    else Some (concatTexts (operations sc st)).
Proof.
  intros H. destruct (planScene_command _ _ _ _ _ H) as (acc & Hloop & _ & Hf & _).
  rewrite Hf, (layerLoop_filter _ _ _ _ Hloop). reflexivity.
Qed.


(** *** The texts the filters are made of *)

Lemma allChars_weaken (p q : ascii -> bool) s :
  (forall c, p c = true -> q c = true) -> allChars p s = true -> allChars q s = true.
Proof.
  intros Hpq. induction s as [|a s IH]; cbn [allChars]; [reflexivity|].
  rewrite !andb_true_iff. intros [Ha Hs]. auto.
Qed.

Lemma uint_numeric d : allChars numeric (NilEmpty.string_of_uint d) = true.
Proof. induction d; cbn [NilEmpty.string_of_uint allChars]; auto. Qed.

Lemma show_numeric n : allChars numeric (show n) = true.
Proof.
  unfold show. destruct (Z.to_int n) as [d|d]; cbn [NilZero.string_of_int].
  - destruct d; try apply uint_numeric. reflexivity.
  - cbn [allChars]. apply andb_true_iff. split; [reflexivity|].
    destruct d; try apply uint_numeric. reflexivity.
Qed.

Lemma numeric_cases (p : ascii -> bool) :
  forallb p (list_ascii_of_string "0123456789-") = true ->
  forall c, numeric c = true -> p c = true.
Proof.
  intros H c Hc. unfold numeric in Hc. apply existsb_exists in Hc as (d & Hd & Hcd).
  apply Ascii.eqb_eq in Hcd. subst d. rewrite forallb_forall in H. now apply H.
Qed.

Lemma show_chars (p : ascii -> bool) n :
  forallb p (list_ascii_of_string "0123456789-") = true -> allChars p (show n) = true.
Proof.
  intros H. eapply allChars_weaken; [apply numeric_cases; exact H | apply show_numeric].
Qed.

Lemma show_ordinary n : allChars ordinary (show n) = true.
Proof. now apply show_chars. Qed.

Lemma show_bare n : allChars bare (show n) = true.
Proof. now apply show_chars. Qed.

Lemma show_nonempty n : show n <> EmptyString.
Proof.
  unfold show. destruct (Z.to_int n) as [d|d]; cbn [NilZero.string_of_int];
    [|discriminate].
  destruct d; cbn; discriminate.
Qed.


(** *** The first reading *)

Lemma addStr_word a s ts : addStr a (Word s :: ts) = Word (a +:+ s) :: ts.
Proof.
  induction a as [|c a IH]; [reflexivity|].
  cbn [addStr]. rewrite IH. reflexivity.
Qed.

Lemma addStr_mark a c ts :
  a <> EmptyString -> addStr a (Mark c :: ts) = Word a :: Mark c :: ts.
Proof.
  destruct a as [|c0 a]; [congruence|]. intros _.
  revert c0. induction a as [|c1 a IH]; intros c0; [reflexivity|].
  change (addStr (String c0 (String c1 a)) (Mark c :: ts))
    with (addChar c0 (addStr (String c1 a) (Mark c :: ts))).
  rewrite IH. reflexivity.
Qed.

Lemma tokens_plain_skip a r :
  allChars ordinary a = true -> tokens Plain (a +:+ r) = addStr a (tokens Plain r).
Proof.
  induction a as [|c a IH]; [reflexivity|].
  cbn [allChars]. rewrite andb_true_iff. intros [Hc Ha].
  change (String c a +:+ r) with (String c (a +:+ r)).
  unfold ordinary in Hc. rewrite !andb_true_iff, !negb_true_iff in Hc.
  destruct Hc as [[Hb Hq] Hsep].
  cbn [tokens addStr]. rewrite Hb, Hq, Hsep. now rewrite IH.
Qed.

Lemma tokens_quoted_skip a r :
  allChars notApostrophe a = true -> tokens Quoted (a +:+ r) = addStr a (tokens Quoted r).
Proof.
  induction a as [|c a IH]; [reflexivity|].
  cbn [allChars]. rewrite andb_true_iff. intros [Hc Ha].
  change (String c a +:+ r) with (String c (a +:+ r)).
  unfold notApostrophe in Hc. rewrite negb_true_iff in Hc.
  cbn [tokens addStr]. rewrite Hc. now rewrite IH.
Qed.

Lemma tokens_plain_show n r : tokens Plain (show n +:+ r) = addStr (show n) (tokens Plain r).
Proof. apply tokens_plain_skip, show_ordinary. Qed.

Lemma tokens_quoted_show n r : tokens Quoted (show n +:+ r) = addStr (show n) (tokens Quoted r).
Proof. apply tokens_quoted_skip, show_chars. reflexivity. Qed.

Ltac str_cons :=
  repeat match goal with
         | |- context [String ?c ?s +:+ ?r] =>
             change (String c s +:+ r) with (String c (s +:+ r))
         | |- context [EmptyString +:+ ?r] => change (EmptyString +:+ r) with r
         end.

Ltac lex :=
  repeat first
    [ rewrite tokens_plain_show
    | rewrite tokens_quoted_show
    | progress str_cons
    | progress cbn [tokens Ascii.eqb Bool.eqb isSeparator orb andb] ].

Ltac words :=
  repeat first
    [ progress cbn [addChar addStr]
    | rewrite addStr_word
    | rewrite addStr_mark by apply show_nonempty ].






Lemma escapeText_same s : allChars notApostrophe s = true -> escapeText s = s.
Proof.
  unfold escapeText. induction s as [|a s IH]; cbn [allChars replace_all]; [reflexivity|].
  intros H. apply andb_true_iff in H as [Ha Hs].
  unfold notApostrophe in Ha. apply negb_true_iff in Ha. rewrite Ha. now rewrite IH.
Qed.

Lemma text_tokens l st :
  allChars notApostrophe (contentText l) = true ->
  allChars ordinary (fontSizeText l) = true ->
  allChars ordinary (fontColorText l) = true ->
  tokens Plain (getTextFilter l st)
  = [Word ("drawtext=text=" +:+ contentText l +:+ ":x=" +:+ show (jsor (x l) 0)
           +:+ ":y=" +:+ show (jsor (y l) 0) +:+ ":fontsize=" +:+ fontSizeText l
           +:+ ":fontcolor=" +:+ fontColorText l
           +:+ ":enable=between(t," +:+ show (jsor (startTime l) 0) +:+ ","
           +:+ show (jsor (startTime l) 0 + jsor (duration l) 5) +:+ ")");
     Mark ";"].
Proof.
  intros Hc Hs Hf.
  unfold getTextFilter, enableExpr. cbv zeta.
  fold (contentText l) (fontSizeText l) (fontColorText l).
  rewrite (escapeText_same _ Hc), !append_assoc.
  lex. rewrite (tokens_quoted_skip _ _ Hc). lex.
  rewrite (tokens_plain_skip _ _ Hs). lex.
  rewrite (tokens_plain_skip _ _ Hf). lex.
  words. str_cons. reflexivity.
Qed.

(** *** The second reading *)


Lemma pieces_cons m s : exists p ps, pieces m s = p :: ps.
Proof.
  revert m. induction s as [|c s IH]; intros m; [cbn; eauto|].
  pose proof (IH Plain) as (p1 & ps1 & H1).
  pose proof (IH Quoted) as (p2 & ps2 & H2).
  pose proof (IH Escaped) as (p3 & ps3 & H3).
  destruct m; cbn [pieces];
    repeat match goal with |- context [if ?b then _ else _] => destruct b end;
    rewrite ?H1, ?H2, ?H3; cbn [pushChar]; eauto.
Qed.




















(** The separators a description exposes are the marks of its tokens. *)
Lemma marks_addChar c ts : marks (addChar c ts) = marks ts.
Proof. destruct ts as [|[s|m] ts]; reflexivity. Qed.

Lemma tokens_marks s : forall m, separatorsFrom m s = marks (tokens m s).
Proof.
  unfold separatorsFrom.
  induction s as [|c s IH]; intros m; [now destruct m|].
  destruct m; cbn [exposed tokens].
  - destruct (Ascii.eqb c "\"); [apply IH|].
    destruct (Ascii.eqb c "'"); [apply IH|].
    cbn [List.filter]. destruct (isSeparator c); cbn [marks].
    + now rewrite IH.
    + rewrite marks_addChar. apply IH.
  - rewrite marks_addChar. apply IH.
  - destruct (Ascii.eqb c "'"); [apply IH|]. rewrite marks_addChar. apply IH.
Qed.






(** C7, at the failing input. For the content [it's] the draw operation
    is the text below; read by the media tool, the apostrophe of the
    content ends the quoted run, and the commas of the enable expression
    are exposed as filter separators. The content [Hello] gives one
    filter. *)
Theorem apostrophe_breaks_drawtext :
  getTextFilter itsLayer settings720
  = "drawtext=text='it\'s':x=0:y=0:fontsize=24:fontcolor=white:enable='between(t,0,5)';" /\
  separators (getTextFilter itsLayer settings720) = [","%char; ","%char] /\
  oneFilter (getTextFilter itsLayer settings720) = false /\
  oneFilter (getTextFilter helloLayer settings720) = true.
Proof. repeat split; reflexivity. Qed.

End PlannerFacts.


(** ** One attempt of the worker *)

Module AttemptFacts.
Import Js Planner World Service Views PlannerFacts.

Lemma log_emit ev w : log (emit ev w) = log w ++ [ev].
Proof. reflexivity. Qed.

Lemma log_addPath p w : log (addPath p w) = log w.
Proof. unfold addPath. now destruct (exists_path p w). Qed.

Lemma log_addPaths dirs : forall w,
  log (fold_left (fun w' dir => addPath dir w') dirs w) = log w.
Proof.
  induction dirs as [|d dirs IH]; intros w; [reflexivity|].
  cbn [fold_left]. now rewrite IH, log_addPath.
Qed.

Lemma log_setJob jobId s made reason rv w : log (setJob jobId s made reason rv w) = log w.
Proof. reflexivity. Qed.

(** *** Rules for [segment] *)

Lemma runs_weaken {A} (m : M A) (post post' : Result A -> list Event -> Prop) :
  runs m post -> (forall r e, post r e -> post' r e) -> runs m post'.
Proof.
  intros Hm Himp w. destruct (Hm w) as (e & Hlog & Hpost).
  exists e. auto.
Qed.

Lemma segment_ret {A} (a : A) (good : A -> Prop) :
  good a -> runs (ret a) (segment good [] []).
Proof. intros Ha w. exists []. split; [now rewrite app_nil_r | now split]. Qed.

Lemma segment_bind {A B} (m : M A) (f : A -> M B) good1 good2 s1 f1 s2 f2 :
  runs m (segment good1 s1 f1) ->
  (forall a, good1 a -> runs (f a) (segment good2 s2 f2)) ->
  f1 `prefix_of` s1 ++ f2 ->
  runs (bind m f) (segment good2 (s1 ++ s2) (s1 ++ f2)).
Proof.
  intros Hm Hf Hpre w. unfold bind.
  destruct (Hm w) as (e1 & Hlog1 & Hpost1).
  destruct (m w) as [[a|msg] w1]; cbn [fst snd] in *.
  - destruct Hpost1 as [Ha ->].
    destruct (Hf a Ha w1) as (e2 & Hlog2 & Hpost2).
    exists (s1 ++ e2). split; [now rewrite Hlog2, Hlog1, app_assoc|].
    destruct (f a w1) as [[b|msg] w2]; cbn [fst snd] in *.
    + destruct Hpost2 as [Hb ->]. now split.
    + now apply prefix_app.
  - exists e1. split; [exact Hlog1|]. cbn. now transitivity f1.
Qed.

(** A step that cannot throw and appends the events [evs]. *)
Lemma segment_total {A} (m : M A) (good : A -> Prop) evs :
  (forall w, exists a, m w = (Ok a, snd (m w)) /\ good a /\ log (snd (m w)) = log w ++ evs) ->
  runs m (segment good evs []).
Proof.
  intros H w. destruct (H w) as (a & Hm & Ha & Hlog).
  exists evs. split; [exact Hlog|]. rewrite Hm. now split.
Qed.

(** A step that appends the events [evs] whether it throws or not. *)
Lemma segment_either {A} (m : M A) (good : A -> Prop) evs :
  (forall w, log (snd (m w)) = log w ++ evs /\
             forall a, fst (m w) = Ok a -> good a) ->
  runs m (segment good evs evs).
Proof.
  intros H w. destruct (H w) as (Hlog & Ha).
  exists evs. split; [exact Hlog|].
  destruct (fst (m w)) as [a|msg]; cbn; [split; auto | reflexivity].
Qed.

(** *** The steps of the service *)

Lemma updateJobStatus_segment jobId s md :
  runs (updateJobStatus jobId s md) (segment (fun _ => True) [EvStatus jobId s] []).
Proof. apply segment_total. intros w. exists tt. repeat split. Qed.

Lemma updateProgress_segment jobId p :
  runs (updateProgress jobId p) (segment (fun _ => True) [EvProgress jobId p] []).
Proof. apply segment_total. intros w. exists tt. repeat split. Qed.

Lemma mkdir_segment path :
  runs (mkdir path) (segment (fun _ => True) [EvMkdir path] []).
Proof.
  apply segment_total. intros w. exists tt. repeat split.
  unfold mkdir. cbn [snd]. now rewrite log_emit, log_addPaths.
Qed.

Lemma writeFile_segment path contents :
  runs (writeFile path contents) (segment (fun _ => True) [EvWriteFile path contents] []).
Proof.
  apply segment_total. intros w. exists tt. repeat split.
  unfold writeFile. cbn [snd]. now rewrite log_emit, log_addPath.
Qed.

Lemma readFile_segment path :
  runs (readFile path) (segment (fun _ => True) [] []).
Proof.
  apply segment_either. intros w. unfold readFile.
  destruct (exists_path path w); cbn; now rewrite app_nil_r.
Qed.

Lemma stat_segment env path :
  runs (stat env path) (segment (fun _ => True) [EvStat path] [EvStat path]).
Proof.
  apply segment_either. intros w. unfold stat.
  destruct (exists_path path w); cbn; auto.
Qed.

(** A scene whose command is built: the run of the command is the one
    event, whether the tool fails or not. *)
Lemma renderScene_segment env attempt sc st workDir i cmd :
  fst (planScene sc st workDir i) = Ok cmd ->
  runs (renderScene env attempt sc st workDir i)
    (segment (fun file => file = sceneOutput workDir i)
       [EvRenderScene cmd] [EvRenderScene cmd]).
Proof.
  intros Hplan. apply segment_either. intros w. unfold renderScene. rewrite Hplan.
  destruct (planScene_command _ _ _ _ _ Hplan) as (_ & _ & _ & _ & Hout).
  destruct (ffmpegScene env attempt cmd); cbn [fst snd].
  - split; [reflexivity | discriminate].
  - rewrite log_addPath. split; [reflexivity|]. intros a [= <-]. exact Hout.
Qed.

(** A scene whose command cannot be built: the error is thrown before
    anything is done. *)
Lemma renderScene_unplanned env attempt sc st workDir i e w :
  fst (planScene sc st workDir i) = Throw e ->
  renderScene env attempt sc st workDir i w = (Throw e, w).
Proof. intros Hplan. unfold renderScene. now rewrite Hplan. Qed.

Lemma runConcat_segment env attempt listFile outputFile :
  runs (runConcat env attempt listFile outputFile)
    (segment (fun file => file = outputFile)
       [EvConcat listFile outputFile] [EvConcat listFile outputFile]).
Proof.
  apply segment_either. intros w. unfold runConcat.
  destruct (ffmpegConcat env attempt _ _); cbn [fst snd].
  - split; [reflexivity | discriminate].
  - rewrite log_addPath. split; [reflexivity|]. now intros a [= <-].
Qed.

Lemma storeUpload_segment env attempt bucket fileName contentType :
  runs (storeUpload env attempt bucket fileName contentType)
    (segment (fun _ => True)
       [EvUpload bucket fileName contentType] [EvUpload bucket fileName contentType]).
Proof. apply segment_either. intros w. now split. Qed.

Lemma cleanup_segment env attempt workDir :
  runs (cleanup env attempt workDir) (segment (fun _ => True) [EvRm workDir] []).
Proof.
  apply segment_total. intros w. exists tt.
  unfold cleanup, try_catch, rm, ret. destruct (rmRefused env attempt); repeat split.
Qed.

Lemma concatenateScenes_segment env attempt sceneFiles st workDir format :
  runs (concatenateScenes env attempt sceneFiles st workDir format)
    (segment (fun file => file = concatOutput workDir format)
       [EvWriteFile (pathJoin workDir "scenes.txt") (fileListOf sceneFiles);
        EvConcat (pathJoin workDir "scenes.txt") (concatOutput workDir format)]
       [EvWriteFile (pathJoin workDir "scenes.txt") (fileListOf sceneFiles);
        EvConcat (pathJoin workDir "scenes.txt") (concatOutput workDir format)]).
Proof.
  unfold concatenateScenes.
  eapply (segment_bind _ _ _ _ [_] [] [_] [_]).
  - apply writeFile_segment.
  - intros _ _. apply runConcat_segment.
  - apply prefix_nil.
Qed.

Lemma uploadFinalVideo_segment env attempt filePath projectId userId :
  runs (uploadFinalVideo env attempt filePath projectId userId)
    (segment (fun _ => True)
       [EvUpload "videos" (uploadName env attempt projectId) "video/mp4"]
       [EvUpload "videos" (uploadName env attempt projectId) "video/mp4"]).
Proof.
  unfold uploadFinalVideo.
  eapply (segment_bind _ _ _ _ [] [] [_] [_]).
  - apply readFile_segment.
  - intros _ _. apply storeUpload_segment.
  - apply prefix_nil.
Qed.

Lemma renderScenes_segment env attempt jobId st workDir n scs : forall i files,
  runs (renderScenes env attempt jobId st workDir n i scs files)
    (segment (fun out => out = files ++ sceneOutputs workDir i scs /\
                         allPlanned st workDir i scs = true)
       (sceneScript jobId st workDir n i scs)
       (sceneScript jobId st workDir n i scs)).
Proof.
  induction scs as [|sc rest IH]; intros i files;
    cbn [renderScenes sceneScript sceneOutputs allPlanned].
  - eapply runs_weaken; [apply (segment_ret files (fun out => out = files)); reflexivity|].
    intros [a|msg] e; cbn; [|auto]. intros [-> ->]. now rewrite app_nil_r.
  - destruct (fst (planScene sc st workDir i)) as [cmd|err] eqn:Hplan.
    + eapply (segment_bind _ _ _ _ [_] [_] (_ :: _) (_ :: _)).
      * apply (renderScene_segment _ _ _ _ _ _ _ Hplan).
      * intros file ->.
        eapply (segment_bind _ _ _ _ [_] [] _ _).
        -- apply updateProgress_segment.
        -- intros _ _. eapply runs_weaken; [apply IH|].
           intros [a|msg] e; cbn; [|auto]. intros [[-> Hall] ->].
           now rewrite <- app_assoc.
        -- apply prefix_nil.
      * now apply prefix_app_r.
    + intros w. exists []. unfold bind.
      rewrite (renderScene_unplanned _ _ _ _ _ _ _ _ Hplan). cbn [fst snd segment].
      split; [now rewrite app_nil_r | reflexivity].
Qed.

(** The last status write and the return cannot throw. *)
Lemma completed_segment jobId md (r : Return) :
  runs (updateJobStatus jobId completed md ;; ret r)
    (segment (fun _ => True) [EvStatus jobId completed] []).
Proof. apply segment_total. intros w. exists r. repeat split. Qed.

Ltac seg_prim :=
  first [ apply updateProgress_segment | apply mkdir_segment
        | apply renderScenes_segment | apply concatenateScenes_segment
        | apply uploadFinalVideo_segment | apply cleanup_segment
        | apply stat_segment | apply completed_segment ].

Ltac seg_side := first [apply prefix_nil | apply prefix_app_r; reflexivity].

Ltac seg_chain :=
  lazymatch goal with
  | |- runs (bind (updateJobStatus _ completed _) _) _ => apply completed_segment
  | |- runs (bind _ _) _ =>
      eapply segment_bind;
        [seg_prim
        | let a := fresh "a" in let Ha := fresh "Ha" in
          intros a Ha; cbv beta in Ha;
          lazymatch type of Ha with
          | _ /\ _ => destruct Ha as [Ha _]
          | _ => idtac
          end;
          subst; seg_chain
        | seg_side]
  end.

(** The steps of an attempt after the first status write: they return
    only when every scene had a command, with the script of the attempt
    and the status write [completed] as events; when a step throws, the
    events are a first part of the script. *)
Lemma body_segment env attempt jobId job (r : string -> Z -> Return) :
  runs
    (updateProgress jobId 5%Q ;;
     mkdir (workDirOf env jobId) ;;
     sceneFiles <- renderScenes env attempt jobId (settings job) (workDirOf env jobId)
                     (Z.of_nat (length (scenes job))) 0 (scenes job) [] ;;
     updateProgress jobId 85%Q ;;
     finalOutput <- concatenateScenes env attempt sceneFiles (settings job)
                      (workDirOf env jobId) (outputFormat job) ;;
     updateProgress jobId 95%Q ;;
     publicUrl <- uploadFinalVideo env attempt finalOutput (projectId job) (userId job) ;;
     cleanup env attempt (workDirOf env jobId) ;;
     updateProgress jobId 100%Q ;;
     size <- stat env finalOutput ;;
     updateJobStatus jobId completed (Some (MdCompleted publicUrl size)) ;;
     ret (r publicUrl size))
    (segment
       (fun _ => allPlanned (settings job) (workDirOf env jobId) 0 (scenes job) = true)
       (bodyScript env attempt jobId job ++ [EvStatus jobId completed])
       (bodyScript env attempt jobId job)).
Proof.
  unfold bodyScript. cbv zeta.
  destruct (allPlanned (settings job) (workDirOf env jobId) 0 (scenes job)) eqn:Hall.
  - eapply runs_weaken; [seg_chain|].
    intros res e. cbn [app]. rewrite <- ?app_assoc. cbn [app]. rewrite ?app_nil_r.
    destruct res; cbn [segment]; [|intros H; exact H]. intros [_ ->]. now split.
  - eapply runs_weaken.
    + eapply segment_bind; [apply updateProgress_segment | | apply prefix_nil].
      intros _ _.
      eapply segment_bind; [apply mkdir_segment | | apply prefix_nil].
      intros _ _.
      eapply (segment_bind _ _ (fun _ => False) (fun _ => False) _ _ [] []).
      * eapply runs_weaken; [apply renderScenes_segment|].
        intros [a|msg] e; cbn [segment]; [|intros H; exact H].
        intros [[_ Htrue] _]. congruence.
      * intros a [].
      * rewrite app_nil_r. reflexivity.
    + intros res e. cbn [app]. rewrite ?app_nil_r.
      destruct res; cbn [segment]; [intros [[] _] | intros H; exact H].
Qed.

(** What one attempt appends to the trace: the status write
    [processing], then the script of the attempt, ended by the status
    write [completed]; or, when a step throws, the script up to some
    point, ended by the status write [failed]. *)
Lemma attempt_trace env attempt jobId job w :
  exists evs,
    log (snd (processRenderJob env attempt jobId job w)) = log w ++ evs /\
    match fst (processRenderJob env attempt jobId job w) with
    | Ok _ =>
        allPlanned (settings job) (workDirOf env jobId) 0 (scenes job) = true /\
        evs = EvStatus jobId processing
              :: bodyScript env attempt jobId job ++ [EvStatus jobId completed]
    | Throw _ =>
        exists e, e `prefix_of` bodyScript env attempt jobId job /\
          evs = EvStatus jobId processing :: e ++ [EvStatus jobId failed]
    end.
Proof.
  remember (processRenderJob env attempt jobId job w) as res eqn:Hres.
  unfold processRenderJob, try_catch in Hres.
  match type of Hres with
  | context [bind (updateJobStatus jobId processing None) ?k] => set (rest := k) in Hres
  end.
  pose proof (body_segment env attempt jobId job
                (fun publicUrl _ =>
                   {| success := true; outputUrl := publicUrl;
                      ret_projectId := projectId job; ret_jobId := jobId |})) as Hrest.
  change (runs (rest tt)
            (segment
               (fun _ => allPlanned (settings job) (workDirOf env jobId) 0 (scenes job) = true)
               (bodyScript env attempt jobId job ++ [EvStatus jobId completed])
               (bodyScript env attempt jobId job))) in Hrest.
  pose (w1 := snd (updateJobStatus jobId processing None w)).
  change (bind (updateJobStatus jobId processing None) rest w)
    with (rest tt w1) in Hres.
  destruct (Hrest w1) as (e & Hlog & Hpost).
  assert (Hw1 : log w1 = log w ++ [EvStatus jobId processing]) by reflexivity.
  destruct (rest tt w1) as [[r|msg] w2]; subst res; cbn [fst snd segment] in *.
  - destruct Hpost as [Hall ->]. eexists. split; [|split; [exact Hall | reflexivity]].
    now rewrite Hlog, Hw1, <- app_assoc.
  - unfold bind, updateJobStatus, throw. cbn [fst snd].
    exists (EvStatus jobId processing :: e ++ [EvStatus jobId failed]).
    split; [|now exists e].
    rewrite log_emit. cbn [log setDb]. rewrite Hlog, Hw1, <- !app_assoc. reflexivity.
Qed.

End AttemptFacts.

(** ** The published name *)

Module PublishFacts.
Import Js Planner World Service Views Samples PlannerFacts AttemptFacts.

Lemma ends_with_refl s : ends_with s s = true.
Proof. destruct s; cbn [ends_with]; now rewrite String.eqb_refl. Qed.

Lemma ends_with_cons c s suffix :
  ends_with s suffix = true -> ends_with (String c s) suffix = true.
Proof. intros H. cbn [ends_with]. rewrite H. apply orb_true_r. Qed.

Lemma ends_with_prepend a s suffix :
  ends_with s suffix = true -> ends_with (a +:+ s) suffix = true.
Proof.
  intros H. induction a as [|c a IH]; [exact H|].
  change (String c a +:+ s) with (String c (a +:+ s)). now apply ends_with_cons.
Qed.

Lemma uploadName_mp4 env attempt projectId :
  ends_with (uploadName env attempt projectId) ".mp4" = true.
Proof.
  unfold uploadName. do 3 apply ends_with_prepend. apply ends_with_refl.
Qed.

Lemma sceneScript_published jobId st workDir format n scs : forall i,
  Forall (publishedAsMp4 workDir format) (sceneScript jobId st workDir n i scs).
Proof.
  induction scs as [|sc rest IH]; intros i; cbn [sceneScript]; [constructor|].
  destruct (fst (planScene sc st workDir i)); [|constructor].
  repeat constructor. apply IH.
Qed.

Lemma bodyScript_published env attempt jobId job :
  Forall (publishedAsMp4 (workDirOf env jobId) (outputFormat job))
    (bodyScript env attempt jobId job).
Proof.
  unfold bodyScript. cbv zeta. cbn [app].
  repeat (apply Forall_cons; split; [exact I|]).
  apply Forall_app. split; [apply sceneScript_published|].
  destruct (allPlanned _ _ _ _); [|constructor].
  repeat (apply Forall_cons; split); try exact I; try apply Forall_nil_2.
  - reflexivity.
  - split; [reflexivity|]. split; [apply uploadName_mp4 | reflexivity].
Qed.

Lemma bind_total {A B} (m : M A) (k : A -> M B) w a w1 :
  m w = (Ok a, w1) -> bind m k w = k a w1.
Proof. intros H. unfold bind. now rewrite H. Qed.

(** When every scene has a command and the tool fails on none, the scene
    loop returns the scene files. *)
Lemma renderScenes_returns env attempt jobId st workDir n scs :
  (forall cmd, ffmpegScene env attempt cmd = None) ->
  forall i files w, allPlanned st workDir i scs = true ->
  exists w' evs,
    renderScenes env attempt jobId st workDir n i scs files w
    = (Ok (files ++ sceneOutputs workDir i scs), w') /\
    log w' = log w ++ evs.
Proof.
  intros Htool. induction scs as [|sc rest IH]; intros i files w;
    cbn [renderScenes sceneOutputs allPlanned].
  - intros _. exists w, []. now rewrite !app_nil_r.
  - destruct (fst (planScene sc st workDir i)) as [cmd|err] eqn:Hplan; [|discriminate].
    intros Hall.
    destruct (planScene_command _ _ _ _ _ Hplan) as (_ & _ & _ & _ & Hout).
    erewrite bind_total;
      [|unfold renderScene; rewrite Hplan, Htool, Hout; reflexivity].
    cbv beta. erewrite bind_total by reflexivity. cbv beta.
    match goal with
    | |- context [renderScenes _ _ _ _ _ _ _ _ _ ?w2] =>
        destruct (IH (i + 1) (files ++ [sceneOutput workDir i]) w2 Hall)
          as (w' & evs & -> & Hlog)
    end.
    exists w'. eexists. split; [now rewrite <- app_assoc|].
    rewrite Hlog. cbn [snd updateProgress]. rewrite log_emit. cbn [log setQueue].
    rewrite log_addPath, log_emit, <- !app_assoc. reflexivity.
Qed.

Lemma exists_path_addPath p w : exists_path p (addPath p w) = true.
Proof.
  unfold addPath. destruct (exists_path p w) eqn:E; [exact E|].
  unfold exists_path. cbn [fs setFs]. rewrite existsb_app. cbn [existsb].
  now rewrite String.eqb_refl, orb_true_r.
Qed.

(** When the scenes and the concatenation go through, the steps of the
    attempt reach the upload: the trace holds the concatenation into
    [final_output.<format>], the progress report 95 and the upload of
    [<projectId>_<now>.mp4], one after the other, whatever happens next. *)
Lemma body_publishes env attempt jobId job (r : string -> Z -> Return) w :
  allPlanned (settings job) (workDirOf env jobId) 0 (scenes job) = true ->
  (forall cmd, ffmpegScene env attempt cmd = None) ->
  (forall listFile outputFile, ffmpegConcat env attempt listFile outputFile = None) ->
  exists before after,
    log (snd
      ((updateProgress jobId 5%Q ;;
        mkdir (workDirOf env jobId) ;;
        sceneFiles <- renderScenes env attempt jobId (settings job) (workDirOf env jobId)
                        (Z.of_nat (length (scenes job))) 0 (scenes job) [] ;;
        updateProgress jobId 85%Q ;;
        finalOutput <- concatenateScenes env attempt sceneFiles (settings job)
                         (workDirOf env jobId) (outputFormat job) ;;
        updateProgress jobId 95%Q ;;
        publicUrl <- uploadFinalVideo env attempt finalOutput (projectId job) (userId job) ;;
        cleanup env attempt (workDirOf env jobId) ;;
        updateProgress jobId 100%Q ;;
        size <- stat env finalOutput ;;
        updateJobStatus jobId completed (Some (MdCompleted publicUrl size)) ;;
        ret (r publicUrl size)) w))
    = log w ++ before
      ++ [EvConcat (pathJoin (workDirOf env jobId) "scenes.txt")
            (concatOutput (workDirOf env jobId) (outputFormat job));
          EvProgress jobId 95%Q;
          EvUpload "videos" (uploadName env attempt (projectId job)) "video/mp4"]
      ++ after.
Proof.
  intros Hall Htool Hconcat.
  erewrite bind_total by reflexivity. cbv beta.
  erewrite bind_total by reflexivity. cbv beta.
  match goal with
  | |- context [bind (renderScenes _ _ _ _ _ _ _ _ _) _ ?w2] =>
      destruct (renderScenes_returns env attempt jobId (settings job) (workDirOf env jobId)
                  (Z.of_nat (length (scenes job))) (scenes job) Htool 0 [] w2 Hall)
        as (w3 & evs & Hrun & Hlog3);
      assert (Hlog2 : log w2 = log w ++ [EvProgress jobId 5%Q; EvMkdir (workDirOf env jobId)])
  end.
  { rewrite log_emit, log_addPaths, log_emit. cbn [log setQueue].
    now rewrite <- app_assoc. }
  rewrite (bind_total _ _ _ _ _ Hrun). cbv beta.
  erewrite bind_total by reflexivity. cbv beta.
  erewrite bind_total;
    [|unfold concatenateScenes; erewrite bind_total by reflexivity; cbv beta;
      unfold runConcat; rewrite Hconcat; reflexivity].
  cbv beta.
  erewrite bind_total by reflexivity. cbv beta.
  match goal with
  | |- context [bind (uploadFinalVideo _ _ ?out _ _) ?k ?w7] =>
      set (rest := k); set (w6 := w7);
      assert (Hthere : exists_path out w6 = true)
        by (subst w6; cbn [snd updateProgress]; apply exists_path_addPath);
      assert (Hlog6 : log w6 = log w3
                ++ [EvProgress jobId 85%Q;
                    EvWriteFile (pathJoin (workDirOf env jobId) "scenes.txt")
                      (fileListOf ([] ++ sceneOutputs (workDirOf env jobId) 0 (scenes job)));
                    EvConcat (pathJoin (workDirOf env jobId) "scenes.txt") out;
                    EvProgress jobId 95%Q])
  end.
  { subst w6. cbn [snd updateProgress]. rewrite log_emit. cbn [log setQueue].
    rewrite log_addPath, log_emit. cbn [snd writeFile]. rewrite log_emit, log_addPath.
    rewrite log_emit. cbn [log setQueue]. rewrite <- !app_assoc. reflexivity. }
  assert (Hup : exists res,
            uploadFinalVideo env attempt (concatOutput (workDirOf env jobId) (outputFormat job))
              (projectId job) (userId job) w6
            = (res, emit (EvUpload "videos" (uploadName env attempt (projectId job))
                            "video/mp4") w6)).
  { unfold uploadFinalVideo. erewrite bind_total;
      [|unfold readFile; rewrite Hthere; reflexivity].
    eexists. reflexivity. }
  destruct Hup as (res & Hup).
  assert (Hafter : exists after,
            log (snd (bind (uploadFinalVideo env attempt
                              (concatOutput (workDirOf env jobId) (outputFormat job))
                              (projectId job) (userId job)) rest w6))
            = log w6 ++ [EvUpload "videos" (uploadName env attempt (projectId job))
                           "video/mp4"] ++ after).
  { unfold bind at 1. rewrite Hup. destruct res as [url|err].
    - assert (Hk : exists done upto,
                runs (rest url) (segment (fun _ => True) done upto))
        by (do 2 eexists; subst rest; cbv beta; seg_chain).
      destruct Hk as (done & upto & Hk).
      destruct (Hk (emit (EvUpload "videos" (uploadName env attempt (projectId job))
                            "video/mp4") w6)) as (e & He & _).
      exists e. rewrite He, log_emit, <- app_assoc. reflexivity.
    - exists []. cbn [snd]. rewrite log_emit. reflexivity. }
  destruct Hafter as (after & Hafter).
  exists ([EvProgress jobId 5%Q; EvMkdir (workDirOf env jobId)] ++ evs
          ++ [EvProgress jobId 85%Q;
              EvWriteFile (pathJoin (workDirOf env jobId) "scenes.txt")
                (fileListOf ([] ++ sceneOutputs (workDirOf env jobId) 0 (scenes job)))]),
         after.
  rewrite Hafter, Hlog6, Hlog3, Hlog2, <- !app_assoc. reflexivity.
Qed.

(** C10. Whatever the requested output format: every concatenation of an
    attempt goes into [final_output.<format>] under the job's working
    directory and every upload goes to the bucket [videos] under a name
    that ends in [.mp4] with the content type [video/mp4]; and when
    every scene has a command and the media tool fails neither on a scene
    nor on the concatenation, the attempt does concatenate and does
    upload [<projectId>_<now>.mp4] as [video/mp4], whether it then
    returns or throws. *)
Theorem published_as_mp4_whatever_format (env : Env) (attempt : nat) (jobId : string)
    (job : RenderJob) (w : World) :
  exists evs,
    log (snd (processRenderJob env attempt jobId job w)) = log w ++ evs /\
    Forall (publishedAsMp4 (workDirOf env jobId) (outputFormat job)) evs /\
    (allPlanned (settings job) (workDirOf env jobId) 0 (scenes job) = true ->
     (forall cmd, ffmpegScene env attempt cmd = None) ->
     (forall listFile outputFile, ffmpegConcat env attempt listFile outputFile = None) ->
     exists before after,
       evs = before
             ++ [EvConcat (pathJoin (workDirOf env jobId) "scenes.txt")
                   (pathJoin (workDirOf env jobId) ("final_output." +:+ outputFormat job));
                 EvProgress jobId 95%Q;
                 EvUpload "videos"
                   (projectId job +:+ "_" +:+ show (now env attempt) +:+ ".mp4")
                   "video/mp4"]
             ++ after).
Proof.
  destruct (attempt_trace env attempt jobId job w) as (evs & Hlog & Hshape).
  exists evs. split; [exact Hlog|].
  pose proof (bodyScript_published env attempt jobId job) as Hbody.
  split.
  - destruct (fst (processRenderJob env attempt jobId job w)).
    + destruct Hshape as [_ ->].
      apply Forall_cons. split; [exact I|].
      apply Forall_app. split; [exact Hbody | now repeat constructor].
    + destruct Hshape as (e & [k Hk] & ->).
      rewrite Hk in Hbody. apply Forall_app in Hbody as [He _].
      apply Forall_cons. split; [exact I|].
      apply Forall_app. split; [exact He | now repeat constructor].
  - intros Hall Htool Hconcat. clear Hshape Hbody.
    remember (processRenderJob env attempt jobId job w) as res eqn:Hres.
    unfold processRenderJob, try_catch in Hres.
    match type of Hres with
    | context [bind (updateJobStatus jobId processing None) ?k] => set (rest := k) in Hres
    end.
    pose (w1 := snd (updateJobStatus jobId processing None w)).
    assert (Hpub : exists before after,
              log (snd (rest tt w1))
              = log w1 ++ before
                ++ [EvConcat (pathJoin (workDirOf env jobId) "scenes.txt")
                      (concatOutput (workDirOf env jobId) (outputFormat job));
                    EvProgress jobId 95%Q;
                    EvUpload "videos" (uploadName env attempt (projectId job)) "video/mp4"]
                ++ after).
    { exact (body_publishes env attempt jobId job
               (fun publicUrl _ =>
                  {| success := true; outputUrl := publicUrl;
                     ret_projectId := projectId job; ret_jobId := jobId |})
               w1 Hall Htool Hconcat). }
    destruct Hpub as (before & after & Hpub).
    change (bind (updateJobStatus jobId processing None) rest w)
      with (rest tt w1) in Hres.
    assert (Hw1 : log w1 = log w ++ [EvStatus jobId processing]) by reflexivity.
    rewrite Hw1 in Hpub.
    destruct (rest tt w1) as [[r|msg] w2]; subst res; cbn [fst snd] in *.
    + exists (EvStatus jobId processing :: before), after.
      rewrite Hpub, <- !app_assoc in Hlog. apply app_inv_head in Hlog.
      rewrite <- Hlog. reflexivity.
    + exists (EvStatus jobId processing :: before), (after ++ [EvStatus jobId failed]).
      unfold bind, updateJobStatus, throw in Hlog. cbn [fst snd] in Hlog.
      rewrite log_emit in Hlog. cbn [log setDb] in Hlog.
      rewrite Hpub, <- !app_assoc in Hlog. apply app_inv_head in Hlog.
      rewrite <- Hlog. cbn [app]. rewrite <- ?app_assoc. reflexivity.
Qed.

Lemma published_as_mp4_whatever_format_witness :
  exists before after,
    log (snd (processRenderJob envOk 1 "1" helloJob (queuedWorld helloJob)))
    = before
      ++ [EvConcat "/app/temp/render_1/scenes.txt" "/app/temp/render_1/final_output.webm";
          EvProgress "1" 95%Q;
          EvUpload "videos" "p_1700000000001.mp4" "video/mp4"]
      ++ after.
Proof.
  destruct (published_as_mp4_whatever_format envOk 1 "1" helloJob (queuedWorld helloJob))
    as (evs & Hlog & _ & Hpub).
  destruct Hpub as (before & after & ->).
  - reflexivity.
  - intros cmd. reflexivity.
  - intros listFile outputFile. reflexivity.
  - exists before, after. exact Hlog.
Defined.

End PublishFacts.
(** ** Progress *)

Module ProgressFacts.
Import Js Planner World Service Views AttemptFacts.
Local Open Scope Q_scope.

Lemma climbs_nil lo hi : climbs lo hi [].
Proof. split; constructor. Qed.

Lemma climbs_one lo hi p : lo <= p -> p <= hi -> climbs lo hi [p].
Proof. intros H1 H2. split; repeat constructor; assumption. Qed.

Lemma climbs_app lo mid hi l1 l2 :
  lo <= mid -> mid <= hi ->
  climbs lo mid l1 -> climbs mid hi l2 -> climbs lo hi (l1 ++ l2).
Proof.
  intros Hlo Hhi [Hs1 Hb1] [Hs2 Hb2]. split.
  - induction Hs1 as [|x l1 Hs1 IH Hx]; cbn [app]; [exact Hs2|].
    inversion_clear Hb1 as [|? ? [_ Hxm] Hb1'].
    constructor; [now apply IH|].
    apply Forall_app. split; [exact Hx|].
    eapply List.Forall_impl; [|exact Hb2]. intros p [Hp _]. cbv beta.
    eapply Qle_trans; eassumption.
  - apply Forall_app. split.
    + eapply List.Forall_impl; [|exact Hb1]. intros p [H1 H2]. cbv beta.
      split; [exact H1 | eapply Qle_trans; eassumption].
    + eapply List.Forall_impl; [|exact Hb2]. intros p [H1 H2]. cbv beta.
      split; [eapply Qle_trans; eassumption | exact H2].
Qed.

Lemma climbs_prefix lo hi e l : e `prefix_of` l -> climbs lo hi l -> climbs lo hi e.
Proof.
  intros [k ->] [Hs Hb]. apply Forall_app in Hb as [Hb _]. split; [|exact Hb].
  clear Hb. induction e as [|x e IH]; [constructor|].
  cbn [app] in Hs. inversion_clear Hs as [|? ? Hs' Hx].
  constructor; [now apply IH|]. now apply Forall_app in Hx as [Hx _].
Qed.

(** The share of the scenes done, [i / n], grows with [i] and stays
    below 1. *)
Lemma share_mono (i j n : Z) :
  (0 < n)%Z -> (i <= j)%Z -> inject_Z i / inject_Z n <= inject_Z j / inject_Z n.
Proof.
  intros Hn Hij. unfold Qdiv. apply Qmult_le_compat_r.
  - now rewrite <- Zle_Qle.
  - apply Qinv_le_0_compat. change 0 with (inject_Z 0). rewrite <- Zle_Qle. lia.
Qed.

Lemma share_le_1 (i n : Z) :
  (0 < n)%Z -> (i <= n)%Z -> inject_Z i / inject_Z n <= 1.
Proof.
  intros Hn Hin. apply Qle_shift_div_r.
  - change 0 with (inject_Z 0). rewrite <- Zlt_Qlt. exact Hn.
  - rewrite Qmult_1_l. now rewrite <- Zle_Qle.
Qed.

Lemma share_nonneg (i n : Z) :
  (0 < n)%Z -> (0 <= i)%Z -> 0 <= inject_Z i / inject_Z n.
Proof.
  intros Hn Hi. apply Qle_shift_div_l.
  - change 0 with (inject_Z 0). rewrite <- Zlt_Qlt. exact Hn.
  - rewrite Qmult_0_l. change 0 with (inject_Z 0). now rewrite <- Zle_Qle.
Qed.

Lemma sceneValues_cons n i len :
  sceneValues n i (S len) = sceneProgress i n :: sceneValues n (i + 1) len.
Proof.
  unfold sceneValues. cbn [seq map]. rewrite Z.add_0_r. f_equal.
  rewrite <- seq_shift, map_map. apply map_ext. intros k.
  f_equal. lia.
Qed.

(** The progress values of the scene loop climb from the value of its
    first index and stay at or below 85. *)
Lemma sceneValues_climbs n len : forall i,
  (0 <= i)%Z -> (i + Z.of_nat len)%Z = n ->
  climbs (if len is O then 85 else sceneProgress i n) 85 (sceneValues n i len).
Proof.
  induction len as [|len IH]; intros i Hi Hn.
  - apply climbs_nil.
  - rewrite sceneValues_cons.
    assert (Hpos : (0 < n)%Z) by lia.
    assert (Hle : sceneProgress i n <= 85).
    { unfold sceneProgress. pose proof (share_le_1 i n Hpos ltac:(lia)). lra. }
    specialize (IH (i + 1)%Z ltac:(lia) ltac:(lia)).
    change (sceneProgress i n :: ?l) with ([sceneProgress i n] ++ l).
    destruct len as [|len'].
    + apply (climbs_app _ 85); [exact Hle | lra | | exact IH].
      apply climbs_one; [apply Qle_refl | exact Hle].
    + assert (Hstep : sceneProgress i n <= sceneProgress (i + 1) n).
      { unfold sceneProgress.
        pose proof (share_mono i (i + 1) n Hpos ltac:(lia)). lra. }
      apply (climbs_app _ (sceneProgress (i + 1) n)); [exact Hstep | | | exact IH].
      * unfold sceneProgress.
        pose proof (share_le_1 (i + 1) n Hpos ltac:(lia)). lra.
      * apply climbs_one; [apply Qle_refl | exact Hstep].
Qed.

Lemma progressOf_app e1 e2 : progressOf (e1 ++ e2) = progressOf e1 ++ progressOf e2.
Proof. apply omap_app. Qed.

Lemma progressOf_prefix e l : e `prefix_of` l -> progressOf e `prefix_of` progressOf l.
Proof. intros [k ->]. rewrite progressOf_app. now exists (progressOf k). Qed.

(** The progress values of the scene loop are the values of the scenes
    in their order, up to the first scene without a command. *)
Lemma sceneScript_progress jobId st workDir n scs : forall i,
  progressOf (sceneScript jobId st workDir n i scs)
    `prefix_of` sceneValues n i (length scs) /\
  (allPlanned st workDir i scs = true ->
   progressOf (sceneScript jobId st workDir n i scs) = sceneValues n i (length scs)).
Proof.
  induction scs as [|sc rest IH]; intros i; cbn [sceneScript allPlanned length].
  - split; reflexivity.
  - rewrite sceneValues_cons.
    destruct (fst (planScene sc st workDir i)) as [cmd|err].
    + destruct (IH (i + 1)%Z) as [Hpre Heq].
      change (progressOf (EvRenderScene cmd :: EvProgress jobId ?p :: ?l))
        with (p :: progressOf l).
      split.
      * now apply prefix_cons.
      * intros Hall. now rewrite (Heq Hall).
    + split; [apply prefix_nil | discriminate].
Qed.

(** The progress values of the script of an attempt. *)
Lemma bodyScript_progress env attempt jobId job :
  progressOf (bodyScript env attempt jobId job)
    `prefix_of` [5] ++ sceneValues (Z.of_nat (length (scenes job))) 0 (length (scenes job))
                ++ [85; 95; 100] /\
  (allPlanned (settings job) (workDirOf env jobId) 0 (scenes job) = true ->
   progressOf (bodyScript env attempt jobId job)
   = [5] ++ sceneValues (Z.of_nat (length (scenes job))) 0 (length (scenes job))
     ++ [85; 95; 100]).
Proof.
  unfold bodyScript. cbv zeta. rewrite !progressOf_app.
  destruct (sceneScript_progress jobId (settings job) (workDirOf env jobId)
              (Z.of_nat (length (scenes job))) (scenes job) 0%Z) as [Hpre Heq].
  change (progressOf [EvProgress jobId 5; EvMkdir (workDirOf env jobId)]) with [5].
  destruct (allPlanned (settings job) (workDirOf env jobId) 0 (scenes job)).
  - rewrite (Heq eq_refl). split; [reflexivity | intros _; reflexivity].
  - split; [|discriminate].
    apply prefix_app. cbn [progressOf omap list_omap]. rewrite app_nil_r.
    destruct Hpre as [k ->]. rewrite <- app_assoc. now apply prefix_app_r.
Qed.

Lemma script_climbs (len : nat) :
  climbs 5 100 ([5] ++ sceneValues (Z.of_nat len) 0 len ++ [85; 95; 100]).
Proof.
  pose proof (sceneValues_climbs (Z.of_nat len) len 0%Z ltac:(lia) ltac:(lia)) as Hsc.
  assert (Hfirst : 5 <= (if len is O then 85 else sceneProgress 0 (Z.of_nat len))).
  { destruct len as [|len']; [lra|].
    unfold sceneProgress.
    pose proof (share_nonneg 0 (Z.of_nat (S len')) ltac:(lia) ltac:(lia)). lra. }
  assert (Hlast : (if len is O then 85 else sceneProgress 0 (Z.of_nat len)) <= 85).
  { destruct len as [|len']; [lra|].
    unfold sceneProgress.
    pose proof (share_le_1 0 (Z.of_nat (S len')) ltac:(lia) ltac:(lia)). lra. }
  eapply (climbs_app 5 _ 100); [exact Hfirst | lra | |].
  - apply climbs_one; [lra | exact Hfirst].
  - eapply (climbs_app _ 85 100); [exact Hlast | lra | exact Hsc |].
    apply (climbs_app 85 95 100 [85] [95; 100]); try lra.
    + apply climbs_one; lra.
    + apply (climbs_app 95 100 100 [95] [100]); try lra; apply climbs_one; lra.
Qed.

(** C9 (as amended). A job enters the queue with progress 0. The
    progress values an attempt at a job of [n] scenes reports are a first
    part of the list 5, then [5 + (i / n) * 80] for the scenes
    [i = 0 .. n-1] in their order, then 85, 95 and 100; they are the whole
    list, ending with 100, when the attempt returns. The list never goes
    down and stays between 5 and 100 (so within 0 and 100), and so do the
    values reported. *)
Theorem progress_climbs_within_attempt (env : Env) (attempt : nat) (jobId : string)
    (job : RenderJob) (w : World) :
  let n := length (scenes job) in
  let script :=
    [5] ++ map (fun i => 5 + (inject_Z (Z.of_nat i) / inject_Z (Z.of_nat n)) * 80)
             (seq 0 n)
    ++ [85; 95; 100] in
  progress <$> (queue (snd (queueRender job w)) !! show (nextId w)) = Some 0 /\
  climbs 5 100 script /\
  exists evs,
    log (snd (processRenderJob env attempt jobId job w)) = log w ++ evs /\
    progressOf evs `prefix_of` script /\
    climbs 5 100 (progressOf evs) /\
    match fst (processRenderJob env attempt jobId job w) with
    | Ok _ => progressOf evs = script /\ last (progressOf evs) = Some 100
    | Throw _ => True
    end.
Proof.
  cbv zeta.
  change ([5] ++ map (fun i => 5 + (inject_Z (Z.of_nat i)
                                   / inject_Z (Z.of_nat (length (scenes job)))) * 80)
                   (seq 0 (length (scenes job))) ++ [85; 95; 100])
    with ([5] ++ sceneValues (Z.of_nat (length (scenes job))) 0 (length (scenes job))
          ++ [85; 95; 100]).
  split.
  { unfold queueRender. cbn [snd queue]. now rewrite lookup_insert_eq. }
  pose proof (script_climbs (length (scenes job))) as Hscript.
  split; [exact Hscript|].
  destruct (attempt_trace env attempt jobId job w) as (evs & Hlog & Hshape).
  exists evs. split; [exact Hlog|].
  destruct (bodyScript_progress env attempt jobId job) as [Hpre Heq].
  destruct (fst (processRenderJob env attempt jobId job w)).
  - destruct Hshape as [Hall ->].
    change (EvStatus jobId processing :: ?l) with ([EvStatus jobId processing] ++ l).
    rewrite !progressOf_app. cbn [progressOf omap list_omap app]. rewrite app_nil_r.
    rewrite (Heq Hall).
    split; [reflexivity|]. split; [exact Hscript|]. split; [reflexivity|].
    change [85; 95; 100] with ([85; 95] ++ [100]).
    rewrite !app_assoc. apply last_snoc.
  - destruct Hshape as (e & He & ->).
    change (EvStatus jobId processing :: ?l) with ([EvStatus jobId processing] ++ l).
    rewrite !progressOf_app. cbn [progressOf omap list_omap app]. rewrite app_nil_r.
    assert (Hp : progressOf e `prefix_of`
                   [5] ++ sceneValues (Z.of_nat (length (scenes job))) 0
                            (length (scenes job)) ++ [85; 95; 100]).
    { etransitivity; [apply progressOf_prefix; exact He | exact Hpre]. }
    split; [exact Hp|]. split; [|exact I].
    eapply climbs_prefix; [exact Hp | exact Hscript].
Qed.

End ProgressFacts.

(** ** Retries *)

Module RetryFacts.
Import Js Planner World Service Views Samples AttemptFacts.

Lemma controlOf_app e1 e2 : controlOf (e1 ++ e2) = controlOf e1 ++ controlOf e2.
Proof. apply List.filter_app. Qed.

Lemma sceneScript_quiet jobId st workDir n scs : forall i,
  controlOf (sceneScript jobId st workDir n i scs) = [].
Proof.
  induction scs as [|sc rest IH]; intros i; cbn [sceneScript]; [reflexivity|].
  destruct (fst (planScene sc st workDir i)); [apply IH | reflexivity].
Qed.

Lemma bodyScript_quiet env attempt jobId job :
  controlOf (bodyScript env attempt jobId job) = [].
Proof.
  unfold bodyScript. cbv zeta. rewrite !controlOf_app, sceneScript_quiet.
  now destruct (allPlanned _ _ _ _).
Qed.

Lemma prefix_quiet e l : e `prefix_of` l -> controlOf l = [] -> controlOf e = [].
Proof.
  intros [k ->]. rewrite controlOf_app. intros H.
  now apply app_eq_nil in H as [H _].
Qed.

(** The status writes of one attempt: [processing], then [completed]
    when it returns and [failed] when it throws; and it returns only when
    every scene had a command. *)
Lemma attempt_control env attempt jobId job w :
  exists evs,
    log (snd (processRenderJob env attempt jobId job w)) = log w ++ evs /\
    controlOf evs =
      [EvStatus jobId processing;
       EvStatus jobId (match fst (processRenderJob env attempt jobId job w) with
                       | Ok _ => completed
                       | Throw _ => failed
                       end)] /\
    match fst (processRenderJob env attempt jobId job w) with
    | Ok _ => allPlanned (settings job) (workDirOf env jobId) 0 (scenes job) = true
    | Throw _ => True
    end.
Proof.
  destruct (attempt_trace env attempt jobId job w) as (evs & Hlog & Hshape).
  exists evs. split; [exact Hlog|].
  destruct (fst (processRenderJob env attempt jobId job w)).
  - destruct Hshape as [Hall ->]. split; [|exact Hall].
    change (EvStatus jobId processing :: ?l) with ([EvStatus jobId processing] ++ l).
    now rewrite !controlOf_app, bodyScript_quiet.
  - destruct Hshape as (e & Hpre & ->). split; [|exact I].
    change (EvStatus jobId processing :: ?l) with ([EvStatus jobId processing] ++ l).
    rewrite !controlOf_app, (prefix_quiet _ _ Hpre (bodyScript_quiet _ _ _ _)).
    reflexivity.
Qed.

(** C5 (as amended). The worker makes at most three attempts at a job.
    An attempt that throws, whatever the error, writes the status
    [failed] at once; while fewer than three attempts were made the queue
    then waits 5000 ms after the first and 10000 ms after the second
    failed attempt, and the next attempt writes [processing] again. So
    the status writes and waits of a job are one of four sequences. Bad
    project data is no exception: a job with a scene whose command cannot
    be built throws in every attempt and goes through all three. *)
Theorem every_failure_marks_failed_then_retries (env : Env) (jobId : string)
    (job : RenderJob) (w : World) :
  exists evs,
    log (runAttempts env attempts 0 jobId job w) = log w ++ evs /\
    let P := EvStatus jobId processing in
    let C := EvStatus jobId completed in
    let F := EvStatus jobId failed in
    (controlOf evs = [P; C] \/
     controlOf evs = [P; F; EvBackoff 5000; P; C] \/
     controlOf evs = [P; F; EvBackoff 5000; P; F; EvBackoff 10000; P; C] \/
     controlOf evs = [P; F; EvBackoff 5000; P; F; EvBackoff 10000; P; F]) /\
    (allPlanned (settings job) (workDirOf env jobId) 0 (scenes job) = false ->
     controlOf evs = [P; F; EvBackoff 5000; P; F; EvBackoff 10000; P; F]).
Proof.
  unfold attempts. cbn [runAttempts].
  set (w0 := setJob jobId q_active 0 None None w).
  destruct (attempt_control env 1 jobId job w0) as (e1 & Hl1 & Hc1 & Hp1).
  destruct (processRenderJob env 1 jobId job w0) as [[r1|m1] w1]; cbn [fst snd] in *.
  { exists e1. split; [now rewrite log_setJob, Hl1|].
    split; [left; exact Hc1 | congruence]. }
  set (w1' := setJob jobId q_active 1 None None _).
  assert (Hw1' : log w1' = log w ++ e1 ++ [EvBackoff 5000]).
  { subst w1'. rewrite log_setJob, log_emit, log_setJob, Hl1.
    now rewrite <- app_assoc. }
  destruct (attempt_control env 2 jobId job w1') as (e2 & Hl2 & Hc2 & Hp2).
  destruct (processRenderJob env 2 jobId job w1') as [[r2|m2] w2]; cbn [fst snd] in *.
  { exists (e1 ++ [EvBackoff 5000] ++ e2).
    split; [now rewrite log_setJob, Hl2, Hw1', <- !app_assoc|].
    split; [|congruence].
    right; left. now rewrite !controlOf_app, Hc1, Hc2. }
  set (w2' := setJob jobId q_active 2 None None _).
  assert (Hw2' : log w2' = log w ++ e1 ++ [EvBackoff 5000] ++ e2 ++ [EvBackoff 10000]).
  { subst w2'. rewrite log_setJob, log_emit, log_setJob, Hl2, Hw1'.
    now rewrite <- !app_assoc. }
  destruct (attempt_control env 3 jobId job w2') as (e3 & Hl3 & Hc3 & Hp3).
  exists (e1 ++ [EvBackoff 5000] ++ e2 ++ [EvBackoff 10000] ++ e3).
  destruct (processRenderJob env 3 jobId job w2') as [[r3|m3] w3]; cbn [fst snd] in *.
  - split; [now rewrite log_setJob, Hl3, Hw2', <- !app_assoc|].
    split; [|congruence].
    right; right; left. now rewrite !controlOf_app, Hc1, Hc2, Hc3.
  - split; [now rewrite log_setJob, Hl3, Hw2', <- !app_assoc|].
    assert (Hall : controlOf (e1 ++ [EvBackoff 5000] ++ e2 ++ [EvBackoff 10000] ++ e3)
                   = [EvStatus jobId processing; EvStatus jobId failed; EvBackoff 5000;
                      EvStatus jobId processing; EvStatus jobId failed; EvBackoff 10000;
                      EvStatus jobId processing; EvStatus jobId failed])
      by now rewrite !controlOf_app, Hc1, Hc2, Hc3.
    split; [right; right; right; exact Hall | intros _; exact Hall].
Qed.

Lemma every_failure_marks_failed_then_retries_witness :
  controlOf (log (runAttempts envOk attempts 0 "1" noSourceJob (queuedWorld noSourceJob)))
  = [EvStatus "1" processing; EvStatus "1" failed; EvBackoff 5000;
     EvStatus "1" processing; EvStatus "1" failed; EvBackoff 10000;
     EvStatus "1" processing; EvStatus "1" failed].
Proof.
  destruct (every_failure_marks_failed_then_retries envOk "1" noSourceJob
              (queuedWorld noSourceJob)) as (evs & Hlog & _ & Hbad).
  rewrite Hlog. change (log (queuedWorld noSourceJob)) with (@nil Event).
  cbn [app]. apply Hbad. reflexivity.
Defined.

(** C5, counterexample. A job whose scene render fails each time is
    written [failed] after the first attempt, with two attempts still to
    come. *)
Lemma failed_written_before_budget_spent :
  controlOf (log (runJob envSceneFails "1" (queuedWorld helloJob)))
  = [EvStatus "1" processing; EvStatus "1" failed; EvBackoff 5000;
     EvStatus "1" processing; EvStatus "1" failed; EvBackoff 10000;
     EvStatus "1" processing; EvStatus "1" failed] /\
  (let w1 := snd (processRenderJob envSceneFails 1 "1" helloJob
                    (setJob "1" q_active 0 None None (queuedWorld helloJob))) in
   status <$> (db w1 !! "1") = Some failed /\ (1 < attempts)%nat).
Proof. split; [vm_compute; reflexivity | split; [vm_compute; reflexivity | unfold attempts; lia]]. Qed.

(** C9, counterexample. A job whose concatenation fails each time
    reports 85 and then, with the next attempt, 5. *)
Lemma progress_falls_back_on_retry :
  progressOf (log (runJob envConcatFails "1" (queuedWorld helloJob)))
  = [5; 5; 85; 5; 5; 85; 5; 5; 85]%Q /\
  ~ StronglySorted Qle (progressOf (log (runJob envConcatFails "1" (queuedWorld helloJob)))).
Proof.
  assert (H : progressOf (log (runJob envConcatFails "1" (queuedWorld helloJob)))
              = [5; 5; 85; 5; 5; 85; 5; 5; 85]%Q) by (vm_compute; reflexivity).
  split; [exact H|]. rewrite H. intros Hs.
  inversion_clear Hs as [|? ? Hs1 _]. inversion_clear Hs1 as [|? ? Hs2 _].
  inversion_clear Hs2 as [|? ? _ Hall]. inversion_clear Hall as [|? ? Hle _].
  revert Hle. unfold Qle. cbn. lia.
Qed.

(** C6, at the failing input. The scene render of the job fails: the
    attempt ends in the [catch], the working directory it created is
    still there, and no removal was tried; it is still there when the
    job has failed for good. *)
Theorem workdir_left_behind_on_failure :
  let w1 := snd (processRenderJob envSceneFails 1 "1" helloJob (queuedWorld helloJob)) in
  let w3 := runJob envSceneFails "1" (queuedWorld helloJob) in
  fst (processRenderJob envSceneFails 1 "1" helloJob (queuedWorld helloJob))
    = Throw "ffmpeg exited with code 1" /\
  In (EvMkdir "/app/temp/render_1") (log w1) /\
  ~ In (EvRm "/app/temp/render_1") (log w1) /\
  exists_path "/app/temp/render_1" w1 = true /\
  status <$> (db w3 !! "1") = Some failed /\
  exists_path "/app/temp/render_1" w3 = true.
Proof.
  cbv zeta. split; [vm_compute; reflexivity|].
  split; [vm_compute; tauto|].
  split.
  - assert (H : List.filter (fun ev => match ev with EvRm _ => true | _ => false end)
                  (log (snd (processRenderJob envSceneFails 1 "1" helloJob
                                (queuedWorld helloJob)))) = []) by (vm_compute; reflexivity).
    intros Hin.
    assert (Hf : In (EvRm "/app/temp/render_1")
                   (List.filter (fun ev => match ev with EvRm _ => true | _ => false end)
                      (log (snd (processRenderJob envSceneFails 1 "1" helloJob
                                   (queuedWorld helloJob))))))
      by (apply filter_In; split; [exact Hin | reflexivity]).
    rewrite H in Hf. destruct Hf.
  - repeat split; vm_compute; reflexivity.
Qed.

(** The same job, when everything outside the service works but the
    removal is refused, completes: the success path is the only one that
    calls the cleanup. *)
Lemma cleanup_only_on_success_path :
  In (EvRm "/app/temp/render_1")
     (log (snd (processRenderJob envRmRefused 1 "1" helloJob (queuedWorld helloJob)))).
Proof. vm_compute. tauto. Qed.

End RetryFacts.

(** ** Validation and cancellation *)

Module ControlFacts.
Import Js Planner World Service Views Samples.

(** C4, at the failing input. A job whose image layer has no [source]
    passes the request schema (which refuses the empty [source]) and is
    queued. The attempt writes the status [processing], reports progress
    5 and creates the working directory; only then is the scene looked
    at, and building its command throws (the media tool is never
    started). The attempt ends with the status [failed], the working
    directory is still there, and the job is tried three times. *)
Theorem missing_source_rejected_after_allocation :
  Schema.renderJobSchema noSourceJob = true /\
  Schema.renderJobSchema emptySourceJob = false /\
  fst (queueRender noSourceJob emptyWorld) = Ok "1" /\
  exists msg,
    fst (planScene (mkScene 5 [noSourceLayer]) settings720 "/app/temp/render_1" 0)
    = Throw msg /\
    let run := processRenderJob envOk 1 "1" noSourceJob (queuedWorld noSourceJob) in
    fst run = Throw msg /\
    log (snd run)
    = [ EvStatus "1" processing; EvProgress "1" 5%Q; EvMkdir "/app/temp/render_1";
        EvStatus "1" failed ] /\
    exists_path "/app/temp/render_1" (snd run) = true /\
    status <$> (db (snd run) !! "1") = Some failed /\
    attemptsMade <$> (queue (runJob envOk "1" (queuedWorld noSourceJob)) !! "1")
    = Some 3%nat.
Proof.
  split; [vm_compute; reflexivity|]. split; [vm_compute; reflexivity|].
  split; [vm_compute; reflexivity|].
  exists inputTypeError. cbv zeta. repeat split; vm_compute; reflexivity.
Qed.

(** C3 (as amended). Cancelling an id the queue does not hold throws
    "Render job not found" and changes nothing. Cancelling a job the
    queue holds and no worker has taken returns true, removes the job
    from the queue and sets the status of its row to [cancelled],
    whatever the status was. *)
Theorem cancel_removes_and_marks_cancelled (w : World) (jobId : string) :
  (queue w !! jobId = None ->
     cancelRender jobId w = (Throw "Render job not found", w)) /\
  (forall job, queue w !! jobId = Some job -> state job <> q_active ->
     fst (cancelRender jobId w) = Ok true /\
     queue (snd (cancelRender jobId w)) !! jobId = None /\
     status <$> (db (snd (cancelRender jobId w)) !! jobId)
     = (fun _ => cancelled) <$> (db w !! jobId)).
Proof.
  split.
  - intros Hq. unfold cancelRender. now rewrite Hq.
  - intros job Hq Hstate. unfold cancelRender. rewrite Hq.
    unfold bind, removeJob, markCancelled, ret.
    destruct (state job); try congruence; cbn [fst snd];
      (split; [reflexivity|]); (split; [apply lookup_delete_eq|]);
      cbn [db emit setDb setQueue]; rewrite lookup_alter_eq;
      destruct (db w !! jobId); reflexivity.
Qed.

Lemma cancel_removes_and_marks_cancelled_witness :
  let w := runJob envRmRefused "1" (queuedWorld helloJob) in
  fst (cancelRender "1" w) = Ok true /\
  queue (snd (cancelRender "1" w)) !! "1" = None /\
  status <$> (db (snd (cancelRender "1" w)) !! "1")
  = (fun _ => cancelled) <$> (db w !! "1").
Proof.
  cbv zeta.
  destruct (queue (runJob envRmRefused "1" (queuedWorld helloJob)) !! "1") as [job|] eqn:Hq;
    [|vm_compute in Hq; discriminate].
  apply (proj2 (cancel_removes_and_marks_cancelled
                  (runJob envRmRefused "1" (queuedWorld helloJob)) "1") job Hq).
  vm_compute in Hq. injection Hq as <-. discriminate.
Defined.

(** C3, counterexample. A job that has completed, and a job that has
    failed for good, are both still in the queue; cancelling either
    returns true and overwrites the status of its row with [cancelled]. *)
Lemma cancel_overwrites_terminal_status :
  let done := runJob envRmRefused "1" (queuedWorld helloJob) in
  let dead := runJob envSceneFails "1" (queuedWorld helloJob) in
  (status <$> (db done !! "1") = Some completed /\
   fst (cancelRender "1" done) = Ok true /\
   status <$> (db (snd (cancelRender "1" done)) !! "1") = Some cancelled) /\
  (status <$> (db dead !! "1") = Some failed /\
   fst (cancelRender "1" dead) = Ok true /\
   status <$> (db (snd (cancelRender "1" dead)) !! "1") = Some cancelled).
Proof. cbv zeta. repeat split; vm_compute; reflexivity. Qed.

End ControlFacts.

(** ** More on the planner *)

Module PlanFacts.
Import Js Planner Views Samples PlanReading PlannerFacts.

Lemma emitted_audio st acc l :
  emitted st acc l = None <-> isAudio l = true.
Proof. unfold emitted, isAudio. destruct (type l); split; congruence. Qed.

Lemma emitted_layer st acc l o : emitted st acc l = Some o -> op_layer o = l.
Proof. unfold emitted. destruct (type l); intros [= <-]; reflexivity. Qed.

(** When the loop runs to its end, its operations are the layers that
    are drawn. *)
Lemma opsFrom_layers st ls : forall acc acc',
  layerLoop st acc ls = Ok acc' -> map op_layer (opsFrom st acc ls) = drawn ls.
Proof.
  induction ls as [|l ls IH]; intros acc acc'; [reflexivity|].
  cbn [layerLoop opsFrom drawn List.filter]. fold (drawn ls).
  destruct (layerStep st acc l) as [acc1|e]; [|discriminate]. intros Hloop.
  destruct (emitted st acc l) as [o|] eqn:E.
  - assert (Ha : isAudio l = false).
    { destruct (isAudio l) eqn:Ha; [|reflexivity].
      apply emitted_audio with (st := st) (acc := acc) in Ha. congruence. }
    rewrite Ha. cbn [negb map]. now rewrite (emitted_layer _ _ _ _ E), (IH _ _ Hloop).
  - apply emitted_audio in E. rewrite E. cbn [negb]. now apply (IH _ _ Hloop).
Qed.

Lemma filter_perm {A} (f : A -> bool) l1 l2 :
  Permutation l1 l2 -> Permutation (List.filter f l1) (List.filter f l2).
Proof.
  intros Hp. induction Hp; cbn [List.filter];
    repeat match goal with |- context [if f ?x then _ else _] => destruct (f x) end;
    eauto using Permutation.
Qed.

Lemma layerStep_inputs st acc l acc' :
  layerStep st acc l = Ok acc' ->
  map Some (a_inputs acc') = map Some (a_inputs acc) ++ map inputOf (media [l]) /\
  inputIndex acc' = inputIndex acc + Z.of_nat (length (media [l])).
Proof.
  unfold layerStep, input, media, isText, inputOf. cbn [List.filter].
  destruct (type l); cbn [negb map length]; destruct (source l); intros [= <-];
    cbn [a_inputs inputIndex];
    rewrite ?map_app, ?app_nil_r; cbn [map]; split; try reflexivity; lia.
Qed.

Lemma media_cons l ls : media (l :: ls) = media [l] ++ media ls.
Proof. unfold media. cbn [List.filter]. now destruct (negb (isText l)). Qed.

(** The inputs the loop ends with are those it started with, followed by
    the sources of the layers that bring one, in their order. *)
Lemma layerLoop_inputs st ls : forall acc acc',
  layerLoop st acc ls = Ok acc' ->
  map Some (a_inputs acc') = map Some (a_inputs acc) ++ map inputOf (media ls) /\
  inputIndex acc' = inputIndex acc + Z.of_nat (length (media ls)).
Proof.
  induction ls as [|l ls IH]; intros acc acc'; cbn [layerLoop].
  - intros [= <-]. cbn. rewrite app_nil_r. split; [reflexivity | lia].
  - destruct (layerStep st acc l) as [acc1|e] eqn:E; [|discriminate]. intros Hloop.
    destruct (IH _ _ Hloop) as [Hi Hn].
    destruct (layerStep_inputs _ _ _ _ E) as [Hi1 Hn1].
    rewrite Hi, Hn, Hi1, Hn1, (media_cons l ls), map_app, length_app, <- app_assoc.
    split; [reflexivity | lia].
Qed.

Lemma planScene_inputs sc st workDir sceneIndex cmd :
  fst (planScene sc st workDir sceneIndex) = Ok cmd ->
  map Some (c_inputs cmd)
  = Some (background sc st) :: map inputOf (media (sortedLayers (layers sc))).
Proof.
  intros Hplan.
  destruct (planScene_command _ _ _ _ _ Hplan) as (acc & Hloop & Hin & _).
  rewrite Hin. now rewrite (proj1 (layerLoop_inputs _ _ _ _ Hloop)).
Qed.

Lemma operations_layers sc st workDir sceneIndex cmd :
  fst (planScene sc st workDir sceneIndex) = Ok cmd ->
  map op_layer (operations sc st) = drawn (sortedLayers (layers sc)) /\
  length (operations sc st) = length (drawn (layers sc)).
Proof.
  intros Hplan.
  destruct (planScene_command _ _ _ _ _ Hplan) as (acc & Hloop & _).
  assert (Hmap : map op_layer (operations sc st) = drawn (sortedLayers (layers sc)))
    by exact (opsFrom_layers _ _ _ _ Hloop).
  split; [exact Hmap|].
  rewrite <- (length_map op_layer), Hmap. unfold drawn.
  apply Permutation_length, filter_perm, sortedLayers_perm.
Qed.

(** X1. In a scene whose command is built, the filter text of the
    command is the text of the operations, which are, in plan order, the
    scene's layers without the audio layers: one operation per image,
    video and text layer and none for an audio layer, which only adds an
    input, as every image and video layer does. *)
Theorem operations_are_drawn_layers (sc : Scene) (st : RenderSettings)
    (workDir : string) (sceneIndex : Z) (cmd : Command) :
  fst (planScene sc st workDir sceneIndex) = Ok cmd ->
  c_complexFilter cmd
  = (if String.eqb (concatTexts (operations sc st)) EmptyString then None
     else Some (concatTexts (operations sc st))) /\
  map op_layer (operations sc st) = drawn (sortedLayers (layers sc)) /\
  length (operations sc st) = length (drawn (layers sc)) /\
  (forall o, In o (operations sc st) -> type (op_layer o) <> audio) /\
  length (c_inputs cmd) = S (length (media (layers sc))).
Proof.
  intros Hplan.
  destruct (operations_layers _ _ _ _ _ Hplan) as [Hmap Hlen].
  split.
  { destruct (planScene_command _ _ _ _ _ Hplan) as (acc & Hloop & _ & Hf & _).
    rewrite Hf. clear Hf.
    assert (Hturns : forall ls acc0 acc1, layerLoop st acc0 ls = Ok acc1 ->
              filterComplex acc1
              = filterComplex acc0 +:+ concatTexts (opsFrom st acc0 ls)).
    { induction ls as [|l ls IH]; intros acc0 acc1; cbn [layerLoop opsFrom concatTexts].
      - intros [= <-]. now rewrite append_empty_r.
      - unfold layerStep, input, emitted.
        destruct (type l), (source l); cbv beta iota; try discriminate;
          intros H; rewrite (IH _ _ H); cbn [filterComplex op_text concatTexts];
          rewrite ?append_assoc; reflexivity. }
    rewrite (Hturns _ _ _ Hloop). reflexivity. }
  split; [exact Hmap|]. split; [exact Hlen|]. split.
  - intros o Ho Hty.
    assert (Hin : In (op_layer o) (drawn (sortedLayers (layers sc))))
      by (rewrite <- Hmap; now apply in_map).
    apply filter_In in Hin as [_ Hd]. unfold isAudio in Hd. rewrite Hty in Hd.
    discriminate.
  - rewrite <- (length_map Some), (planScene_inputs _ _ _ _ _ Hplan).
    cbn [length]. rewrite length_map. f_equal. unfold media.
    apply Permutation_length, filter_perm, sortedLayers_perm.
Qed.

Lemma operations_are_drawn_layers_witness :
  map op_layer (operations lateScene settings720) = [lateImage] /\
  length (operations lateScene settings720) = 1%nat.
Proof.
  destruct (operations_are_drawn_layers lateScene settings720 "/app/temp/render_1" 0 _
              eq_refl) as (_ & Hmap & Hlen & _).
  split; [exact Hmap | exact Hlen].
Defined.

(** The filter of an image or video layer names the place its source
    takes among the inputs that follow. *)
Lemma opsFrom_index st ls : forall acc acc' o,
  layerLoop st acc ls = Ok acc' ->
  In o (opsFrom st acc ls) -> type (op_layer o) <> text ->
  exists k : nat,
    media ls !! k = Some (op_layer o) /\
    op_text o = match type (op_layer o) with
                | image => getImageFilter (op_layer o) (inputIndex acc + Z.of_nat k) st
                | _ => getVideoFilter (op_layer o) (inputIndex acc + Z.of_nat k) st
                end.
Proof.
  induction ls as [|l ls IH]; intros acc acc' o Hloop Hin Hty; [destruct Hin|].
  cbn [layerLoop opsFrom] in Hloop, Hin. rewrite (media_cons l ls).
  destruct (layerStep st acc l) as [acc1|e] eqn:E; [|discriminate].
  destruct (layerStep_inputs _ _ _ _ E) as [_ Hn1].
  assert (Htail : In o (opsFrom st acc1 ls) ->
            exists k : nat,
              (media [l] ++ media ls) !! k = Some (op_layer o) /\
              op_text o = match type (op_layer o) with
                          | image => getImageFilter (op_layer o) (inputIndex acc + Z.of_nat k) st
                          | _ => getVideoFilter (op_layer o) (inputIndex acc + Z.of_nat k) st
                          end).
  { intros Hin'. destruct (IH _ _ _ Hloop Hin' Hty) as (k & Hk & Htxt).
    exists (length (media [l]) + k)%nat. split.
    - now rewrite lookup_app_r, Nat.add_comm, Nat.add_sub by lia.
    - rewrite Htxt, Hn1. now rewrite Nat2Z.inj_add, Z.add_assoc. }
  assert (Hhead : type l <> text -> media [l] = [l]).
  { intros Hl. unfold media, isText. cbn [List.filter].
    destruct (type l); cbn [negb]; congruence. }
  unfold emitted in Hin.
  destruct (type l) eqn:El.
  - destruct Hin as [<-|Hin]; [|now apply Htail].
    exists O. cbn [op_layer op_text] in *. rewrite El, Z.add_0_r, Hhead by congruence.
    now split.
  - destruct Hin as [<-|Hin]; [|now apply Htail].
    exists O. cbn [op_layer op_text] in *. rewrite El, Z.add_0_r, Hhead by congruence.
    now split.
  - destruct Hin as [<-|Hin]; [|now apply Htail].
    cbn [op_layer] in Hty. congruence.
  - now apply Htail.
Qed.

Lemma lookup_map {A B} (f : A -> B) (l : list A) : forall k : nat,
  map f l !! k = f <$> (l !! k).
Proof.
  induction l as [|a l IH]; intros [|k]; cbn; try reflexivity. apply IH.
Qed.

(** X2. The inputs of a scene's command are the background followed by
    the sources of the image, video and audio layers in plan order, and
    the filter of every image or video layer reads the input that holds
    that layer's source. *)
Theorem overlay_reads_its_own_input (sc : Scene) (st : RenderSettings)
    (workDir : string) (sceneIndex : Z) (cmd : Command) :
  fst (planScene sc st workDir sceneIndex) = Ok cmd ->
  map Some (c_inputs cmd)
  = Some (background sc st) :: map inputOf (media (sortedLayers (layers sc))) /\
  forall o, In o (operations sc st) -> type (op_layer o) <> text ->
    exists i : nat,
      Some <$> (c_inputs cmd !! i) = Some (inputOf (op_layer o)) /\
      op_text o = match type (op_layer o) with
                  | image => getImageFilter (op_layer o) (Z.of_nat i) st
                  | _ => getVideoFilter (op_layer o) (Z.of_nat i) st
                  end.
Proof.
  intros Hplan.
  pose proof (planScene_inputs _ _ _ _ _ Hplan) as Hin.
  split; [exact Hin|].
  intros o Ho Hty.
  destruct (planScene_command _ _ _ _ _ Hplan) as (acc & Hloop & _).
  destruct (opsFrom_index st _ _ _ o Hloop Ho Hty) as (k & Hk & Htxt).
  exists (S k). split.
  - rewrite <- lookup_map, Hin.
    change ((Some (background sc st) :: ?l) !! S k) with (l !! k).
    now rewrite lookup_map, Hk.
  - rewrite Htxt. cbn [initAcc inputIndex]. now rewrite Nat2Z.inj_succ, Z.add_1_l.
Qed.

Lemma overlay_reads_its_own_input_witness :
  match fst (planScene lateScene settings720 "/app/temp/render_1" 0) with
  | Ok cmd =>
      exists i : nat,
        Some <$> (c_inputs cmd !! i) = Some (inputOf lateImage) /\
        "[1:v]scale=100:50[img1];[0:v][img1]overlay=0:0:enable='between(t,5,7)'[v1];"
        = getImageFilter lateImage (Z.of_nat i) settings720
  | Throw _ => False
  end.
Proof.
  destruct (fst (planScene lateScene settings720 "/app/temp/render_1" 0)) as [cmd|msg] eqn:E.
  - apply (proj2 (overlay_reads_its_own_input lateScene settings720 "/app/temp/render_1" 0
                    cmd E)
             {| op_layer := lateImage;
                op_text := "[1:v]scale=100:50[img1];[0:v][img1]overlay=0:0:enable='between(t,5,7)'[v1];" |}).
    + left. reflexivity.
    + discriminate.
  - vm_compute in E. discriminate E.
Defined.

Lemma emitted_text_nonempty st acc l o :
  emitted st acc l = Some o -> op_text o <> EmptyString.
Proof.
  unfold emitted, getImageFilter, getVideoFilter, getTextFilter.
  destruct (type l); intros [= <-]; cbn [op_text]; discriminate.
Qed.

Lemma concatTexts_empty st ls : forall acc,
  concatTexts (opsFrom st acc ls) = EmptyString <-> opsFrom st acc ls = [].
Proof.
  induction ls as [|l ls IH]; intros acc; cbn [opsFrom]; [tauto|].
  destruct (layerStep st acc l) as [acc1|e]; [|tauto].
  destruct (emitted st acc l) as [o|] eqn:E; [|apply IH].
  split; [|discriminate]. cbn [concatTexts].
  pose proof (emitted_text_nonempty _ _ _ _ E) as Hne.
  destruct (op_text o); [congruence | discriminate].
Qed.

(** X3. A scene's command gets a complex filter exactly when the scene
    has a layer that is not audio; with none (no layers, or audio layers
    only) no filter is set. *)
Theorem filter_set_iff_something_drawn (sc : Scene) (st : RenderSettings)
    (workDir : string) (sceneIndex : Z) (cmd : Command) :
  fst (planScene sc st workDir sceneIndex) = Ok cmd ->
  (c_complexFilter cmd = None <-> drawn (layers sc) = []).
Proof.
  intros Hplan. rewrite (planScene_filter _ _ _ _ _ Hplan).
  destruct (operations_layers _ _ _ _ _ Hplan) as [_ Hlen].
  pose proof (concatTexts_empty st (sortedLayers (layers sc)) (initAcc sc st)) as Hc.
  fold (operations sc st) in Hc.
  destruct (String.eqb_spec (concatTexts (operations sc st)) EmptyString) as [He|Hne].
  - split; [intros _ | reflexivity].
    apply Hc in He. rewrite He in Hlen. cbn in Hlen.
    now destruct (drawn (layers sc)).
  - split; [discriminate|]. intros Hd. rewrite Hd in Hlen. cbn in Hlen.
    destruct (operations sc st); [|discriminate]. exfalso. apply Hne. reflexivity.
Qed.

Lemma filter_set_iff_something_drawn_witness :
  match fst (planScene (mkScene 10 []) settings720 "/app/temp/render_1" 0) with
  | Ok cmd => c_complexFilter cmd = None
  | Throw _ => False
  end.
Proof.
  destruct (fst (planScene (mkScene 10 []) settings720 "/app/temp/render_1" 0))
    as [cmd|msg] eqn:E.
  - apply (proj2 (filter_set_iff_something_drawn (mkScene 10 []) settings720
                    "/app/temp/render_1" 0 cmd E)).
    reflexivity.
  - vm_compute in E. discriminate E.
Defined.

Lemma layerStep_built st acc l :
  (exists acc', layerStep st acc l = Ok acc') <-> forallb hasSource (media [l]) = true.
Proof.
  unfold layerStep, input, media, isText, hasSource. cbn [List.filter].
  destruct (type l); cbn [negb forallb]; destruct (source l); cbn [andb];
    split; intros H; try reflexivity; try (eexists; reflexivity);
    try discriminate; destruct H as [? H]; discriminate.
Qed.

Lemma layerStep_throws st acc l e : layerStep st acc l = Throw e -> e = inputTypeError.
Proof.
  unfold layerStep, input.
  destruct (type l), (source l); intros H; try discriminate; now injection H.
Qed.

Lemma layerLoop_built st ls : forall acc,
  (exists acc', layerLoop st acc ls = Ok acc') <-> forallb hasSource (media ls) = true.
Proof.
  induction ls as [|l ls IH]; intros acc; cbn [layerLoop].
  - split; [reflexivity | eauto].
  - rewrite (media_cons l ls), forallb_app, andb_true_iff, <- (layerStep_built st acc l).
    destruct (layerStep st acc l) as [acc1|e].
    + rewrite (IH acc1). split; [intros H; split; [eauto | exact H] | tauto].
    + split; [intros [? H]; discriminate | intros [[? H] _]; discriminate].
Qed.

Lemma layerLoop_throws st ls : forall acc e,
  layerLoop st acc ls = Throw e -> e = inputTypeError.
Proof.
  induction ls as [|l ls IH]; intros acc e; cbn [layerLoop]; [discriminate|].
  destruct (layerStep st acc l) as [acc1|e1] eqn:E; [apply IH|].
  intros [= <-]. exact (layerStep_throws _ _ _ _ E).
Qed.

Lemma forallb_perm {A} (f : A -> bool) l1 l2 :
  Permutation l1 l2 -> forallb f l1 = forallb f l2.
Proof.
  intros Hp. induction Hp as [|a l1 l2 _ IH|a b l|l1 l2 l3 _ IH1 _ IH2];
    cbn [forallb]; try congruence.
  now rewrite !andb_assoc, (andb_comm (f b)).
Qed.

(** X22. The command of a scene is built exactly when every image, video
    and audio layer of the scene comes with a source (a text layer needs
    none); otherwise building it throws the error of the media library,
    whatever else the scene holds. *)
Theorem command_built_iff_sourced (sc : Scene) (st : RenderSettings)
    (workDir : string) (sceneIndex : Z) :
  ((exists cmd, fst (planScene sc st workDir sceneIndex) = Ok cmd)
   <-> sourced sc = true) /\
  (sourced sc = false ->
   fst (planScene sc st workDir sceneIndex) = Throw inputTypeError).
Proof.
  assert (Hs : sourced sc = forallb hasSource (media (sortedLayers (layers sc)))).
  { unfold sourced, media. apply forallb_perm, filter_perm. symmetry.
    apply sortedLayers_perm. }
  pose proof (layerLoop_built st (sortedLayers (layers sc)) (initAcc sc st)) as Hb.
  rewrite <- Hs in Hb.
  pose proof (layerLoop_throws st (sortedLayers (layers sc)) (initAcc sc st)) as Ht.
  unfold planScene. cbn [fst].
  destruct (layerLoop st (initAcc sc st) (sortedLayers (layers sc))) as [acc|e].
  - assert (Hok : sourced sc = true) by (apply Hb; eauto).
    split; [split; [intros _; exact Hok | intros _; eauto] | congruence].
  - split.
    + split; [intros [? H]; discriminate|].
      intros H. apply Hb in H as [? H]. discriminate.
    + intros _. now rewrite (Ht e eq_refl).
Qed.

Lemma command_built_iff_sourced_witness :
  fst (planScene (mkScene 5 [noSourceLayer]) settings720 "/app/temp/render_1" 0)
  = Throw inputTypeError.
Proof.
  apply (proj2 (command_built_iff_sourced (mkScene 5 [noSourceLayer]) settings720
                  "/app/temp/render_1" 0)).
  reflexivity.
Defined.



(** *** Escaping and quoting of the text *)

Lemma replace_all_absent c r s :
  allChars (fun a => negb (Ascii.eqb a c)) s = true -> replace_all c r s = s.
Proof.
  induction s as [|a s IH]; cbn [allChars replace_all]; [reflexivity|].
  intros H. apply andb_true_iff in H as [Ha Hs].
  apply negb_true_iff in Ha. rewrite Ha. now rewrite IH.
Qed.

Lemma escapeText_guarded s : forall after, guarded after (escapeText s) = true.
Proof.
  unfold escapeText.
  induction s as [|a s IH]; intros after; cbn [replace_all]; [reflexivity|].
  destruct (Ascii.eqb_spec a "'") as [->|Hne].
  - change ("\'" +:+ ?r) with (String "\" (String "'" r)).
    cbn [guarded]. cbn. apply IH.
  - cbn [guarded]. apply Ascii.eqb_neq in Hne. rewrite Hne. apply IH.
Qed.

Lemma escapeText_length s :
  String.length (escapeText s) = (String.length s + countChar "'" s)%nat.
Proof.
  unfold escapeText.
  induction s as [|a s IH]; cbn [replace_all countChar String.length]; [reflexivity|].
  destruct (Ascii.eqb a "'").
  - change ("\'" +:+ ?r) with (String "\" (String "'" r)).
    cbn [String.length]. rewrite IH. lia.
  - cbn [String.length]. rewrite IH. lia.
Qed.

(** X5. The escape of the text leaves a text without apostrophes as it
    is; in general it puts one backslash before every apostrophe and
    changes nothing else, so every apostrophe of the result comes right
    after a backslash and the result is longer by the number of
    apostrophes. *)
Theorem escapeText_adds_one_backslash_per_apostrophe (s : string) :
  (allChars notApostrophe s = true -> escapeText s = s) /\
  guarded false (escapeText s) = true /\
  String.length (escapeText s) = (String.length s + countChar "'" s)%nat.
Proof.
  split; [apply replace_all_absent|].
  split; [apply escapeText_guarded | apply escapeText_length].
Qed.

Lemma escapeText_adds_one_backslash_per_apostrophe_witness :
  escapeText "Hello" = "Hello".
Proof.
  apply (proj1 (escapeText_adds_one_backslash_per_apostrophe "Hello")). reflexivity.
Defined.

(** X6. For a text without apostrophe, and a font size and a font
    colour made of ordinary characters (the defaults [24] and [white]
    are), the draw operation reads as one filter: the only separator it
    exposes is the semicolon that ends it. A font size that holds a comma
    breaks it. *)
Theorem text_without_apostrophe_is_one_filter (l : Layer) (st : RenderSettings) :
  (allChars notApostrophe (contentText l) = true ->
   allChars ordinary (fontSizeText l) = true ->
   allChars ordinary (fontColorText l) = true ->
   separators (getTextFilter l st) = [";"%char] /\
   oneFilter (getTextFilter l st) = true) /\
  oneFilter (getTextFilter sizedLayer st) = false.
Proof.
  split.
  - intros Htext Hsize Hcolor.
    assert (Hsep : separators (getTextFilter l st) = [";"%char]).
    { change (separators (getTextFilter l st))
        with (separatorsFrom Plain (getTextFilter l st)).
      now rewrite tokens_marks, text_tokens. }
    split; [exact Hsep|]. unfold oneFilter. now rewrite Hsep.
  - assert (Hsep : separators (getTextFilter sizedLayer st) = [","%char; ";"%char]).
    { change (separators (getTextFilter sizedLayer st))
        with (separatorsFrom Plain (getTextFilter sizedLayer st)).
      unfold getTextFilter, enableExpr. cbv zeta. rewrite !append_assoc.
      change (jsor (startTime sizedLayer) 0 + jsor (duration sizedLayer) 5) with 5.
      reflexivity. }
    unfold oneFilter. now rewrite Hsep.
Qed.

Lemma text_without_apostrophe_is_one_filter_witness :
  separators (getTextFilter helloLayer settings720) = [";"%char] /\
  oneFilter (getTextFilter helloLayer settings720) = true.
Proof.
  apply (proj1 (text_without_apostrophe_is_one_filter helloLayer settings720));
    reflexivity.
Defined.

End PlanFacts.

(** ** More on an attempt *)

Module AttemptMore.
Import Js Planner World Service Views Samples TraceReading PlannerFacts AttemptFacts.


Lemma listsOf_app e1 e2 : listsOf (e1 ++ e2) = listsOf e1 ++ listsOf e2.
Proof. apply omap_app. Qed.


Lemma sceneScript_lists jobId st workDir n scs : forall i,
  listsOf (sceneScript jobId st workDir n i scs) = [].
Proof.
  induction scs as [|sc rest IH]; intros i; cbn [sceneScript]; [reflexivity|].
  destruct (fst (planScene sc st workDir i)); [apply IH | reflexivity].
Qed.


Lemma sceneOutputs_lines workDir scs : forall i : nat,
  map (fun file => "file '" +:+ file +:+ "'") (sceneOutputs workDir (Z.of_nat i) scs)
  = imap (fun k _ => listLine workDir (i + k)) scs.
Proof.
  induction scs as [|sc rest IH]; intros i; [reflexivity|].
  cbn [sceneOutputs map]. rewrite imap_cons, Nat.add_0_r. f_equal.
  - unfold listLine, sceneOutput, pathJoin. now rewrite !append_assoc.
  - replace (Z.of_nat i + 1) with (Z.of_nat (S i)) by lia.
    rewrite IH. apply imap_ext. intros k x _. cbn. f_equal. lia.
Qed.


(** X8. An attempt that returns has written one list for the
    concatenation, with one line [file '<workDir>/scene_i.mp4'] per scene
    of the job, in the order of the scenes, joined by newlines. *)
Theorem concat_list_follows_scene_order (env : Env) (attempt : nat) (jobId : string)
    (job : RenderJob) (w : World) :
  exists evs,
    log (snd (processRenderJob env attempt jobId job w)) = log w ++ evs /\
    match fst (processRenderJob env attempt jobId job w) with
    | Ok _ =>
        listsOf evs
        = [join newline (imap (fun i _ => listLine (workDirOf env jobId) i) (scenes job))]
    | Throw _ => True
    end.
Proof.
  destruct (attempt_trace env attempt jobId job w) as (evs & Hlog & Hshape).
  exists evs. split; [exact Hlog|].
  destruct (fst (processRenderJob env attempt jobId job w)); [|exact I].
  destruct Hshape as [Hall ->].
  change (EvStatus jobId processing :: ?l) with ([EvStatus jobId processing] ++ l).
  unfold bodyScript. cbv zeta. rewrite Hall, !listsOf_app, sceneScript_lists.
  cbn [listsOf omap list_omap app]. unfold fileListOf.
  now rewrite (sceneOutputs_lines _ _ 0%nat).
Qed.

End AttemptMore.

(** ** The end of an attempt and of a run *)

Module RunFacts.
Import Js Planner World Service Views Samples TraceReading PlannerFacts AttemptFacts.

(** *** The removal comes before the size is read *)

Lemma prefix_append a b : String.prefix a (a +:+ b) = true.
Proof.
  induction a as [|c a IH]; [now destruct b|].
  change (String c a +:+ b) with (String c (a +:+ b)).
  cbn [String.prefix]. destruct (ascii_dec c c); [exact IH | congruence].
Qed.

Lemma under_pathJoin dir name : under dir (pathJoin dir name) = true.
Proof.
  unfold under, pathJoin. rewrite <- append_assoc, prefix_append. apply orb_true_r.
Qed.

Lemma removed_is_gone dir p paths :
  under dir p = true ->
  existsb (String.eqb p) (List.filter (fun q => negb (under dir q)) paths) = false.
Proof.
  intros Hp. induction paths as [|q paths IH]; [reflexivity|].
  cbn [List.filter]. destruct (under dir q) eqn:Hq; cbn [negb]; [exact IH|].
  cbn [existsb]. rewrite IH, orb_false_r.
  apply String.eqb_neq. intros ->. congruence.
Qed.

Lemma neverReturns_bind {A B} (m : M A) (k : A -> M B) good done upto :
  runs m (segment good done upto) ->
  (forall a, good a -> neverReturns (k a)) ->
  neverReturns (bind m k).
Proof.
  intros Hm Hk w. unfold bind.
  destruct (Hm w) as (e & _ & Hpost).
  destruct (m w) as [[a|msg] w1]; cbn [fst snd segment] in *.
  - destruct Hpost as [Ha _]. apply (Hk a Ha w1).
  - now exists msg.
Qed.

(** When the removal is not refused, the size of the final file is asked
    for after its directory is gone. *)
Lemma stat_after_cleanup_throws env attempt jobId workDir name {A} (k : Z -> M A) :
  rmRefused env attempt = false ->
  neverReturns
    (cleanup env attempt workDir ;;
     updateProgress jobId 100%Q ;;
     size <- stat env (pathJoin workDir name) ;; k size).
Proof.
  intros Hrm w. unfold bind, cleanup, try_catch, rm, updateProgress, stat.
  rewrite Hrm. cbn [fst snd]. unfold exists_path. cbn [fs emit setQueue setFs].
  rewrite removed_is_gone by apply under_pathJoin.
  now eexists.
Qed.

Ltac never_chain :=
  lazymatch goal with
  | |- neverReturns (bind (cleanup _ _ _) _) => idtac
  | |- neverReturns (bind _ _) =>
      eapply neverReturns_bind;
        [seg_prim
        | let a := fresh "a" in let Ha := fresh "Ha" in
          intros a Ha; cbv beta in Ha;
          lazymatch type of Ha with
          | _ /\ _ => destruct Ha as [Ha _]
          | _ => idtac
          end;
          subst; never_chain]
  end.

(** With a removal that is not refused, the steps of an attempt end in
    the [catch]. *)
Lemma attempt_never_returns env attempt jobId job w :
  rmRefused env attempt = false ->
  exists msg, fst (processRenderJob env attempt jobId job w) = Throw msg.
Proof.
  intros Hrm. unfold processRenderJob, try_catch.
  match goal with
  | |- context [bind (updateJobStatus jobId processing None) ?k] => set (rest := k)
  end.
  assert (Hrest : neverReturns (rest tt)).
  { subst rest. cbv beta zeta. never_chain.
    unfold concatOutput. now apply stat_after_cleanup_throws. }
  pose (w1 := snd (updateJobStatus jobId processing None w)).
  change (bind (updateJobStatus jobId processing None) rest w) with (rest tt w1).
  destruct (Hrest w1) as (msg & Hmsg).
  destruct (rest tt w1) as [[r|m] w2]; cbn [fst] in Hmsg; [discriminate|].
  exists m. reflexivity.
Qed.

(** X9. An attempt in which the removal of the working directory is not
    refused never returns: either an earlier step throws, or the cleanup
    removes the directory and reading the size of the final file, which
    was inside it, throws. Such an attempt always ends in the [catch]. *)
Theorem attempt_throws_when_cleanup_works (env : Env) (attempt : nat) (jobId : string)
    (job : RenderJob) (w : World) :
  rmRefused env attempt = false ->
  exists msg, fst (processRenderJob env attempt jobId job w) = Throw msg.
Proof. apply attempt_never_returns. Qed.

Lemma attempt_throws_when_cleanup_works_witness :
  exists msg, fst (processRenderJob envOk 1 "1" helloJob (queuedWorld helloJob)) = Throw msg.
Proof.
  apply (attempt_throws_when_cleanup_works envOk 1 "1" helloJob (queuedWorld helloJob)).
  reflexivity.
Defined.

(** *** The job table through an attempt *)

Lemma db_addPath p w : db (addPath p w) = db w.
Proof. unfold addPath. now destruct (exists_path p w). Qed.

Lemma queue_addPath p w : queue (addPath p w) = queue w.
Proof. unfold addPath. now destruct (exists_path p w). Qed.

Lemma db_addPaths dirs : forall w,
  db (fold_left (fun w' dir => addPath dir w') dirs w) = db w.
Proof.
  induction dirs as [|d dirs IH]; intros w; [reflexivity|].
  cbn [fold_left]. now rewrite IH, db_addPath.
Qed.

Lemma queue_addPaths dirs : forall w,
  queue (fold_left (fun w' dir => addPath dir w') dirs w) = queue w.
Proof.
  induction dirs as [|d dirs IH]; intros w; [reflexivity|].
  cbn [fold_left]. now rewrite IH, queue_addPath.
Qed.

Lemma keepsTable_ret {A} (a : A) : keepsTable (ret a).
Proof. intros w. reflexivity. Qed.

Lemma keepsTable_bind {A B} (m : M A) (k : A -> M B) :
  keepsTable m -> (forall a, keepsTable (k a)) -> keepsTable (bind m k).
Proof.
  intros Hm Hk w. unfold bind. specialize (Hm w).
  destruct (m w) as [[a|msg] w1]; cbn [snd] in *; [|exact Hm].
  now rewrite Hk.
Qed.

Lemma keepsTable_catch {A} (m : M A) (h : string -> M A) :
  keepsTable m -> (forall e, keepsTable (h e)) -> keepsTable (try_catch m h).
Proof.
  intros Hm Hh w. unfold try_catch. specialize (Hm w).
  destruct (m w) as [[a|msg] w1]; cbn [snd] in *; [exact Hm|].
  now rewrite Hh.
Qed.

Lemma keepsTable_updateProgress jobId p : keepsTable (updateProgress jobId p).
Proof. intros w. reflexivity. Qed.

Lemma keepsTable_mkdir path : keepsTable (mkdir path).
Proof. intros w. unfold mkdir. cbn [snd emit db]. apply db_addPaths. Qed.

Lemma keepsTable_writeFile path contents : keepsTable (writeFile path contents).
Proof. intros w. unfold writeFile. cbn [snd emit db]. apply db_addPath. Qed.

Lemma keepsTable_readFile path : keepsTable (readFile path).
Proof. intros w. unfold readFile. now destruct (exists_path path w). Qed.

Lemma keepsTable_stat env path : keepsTable (stat env path).
Proof. intros w. unfold stat. now destruct (exists_path path w). Qed.

Lemma keepsTable_rm env attempt dir : keepsTable (rm env attempt dir).
Proof. intros w. unfold rm. now destruct (rmRefused env attempt). Qed.

Lemma keepsTable_cleanup env attempt dir : keepsTable (cleanup env attempt dir).
Proof.
  apply keepsTable_catch; [apply keepsTable_rm | intros; apply keepsTable_ret].
Qed.

Lemma keepsTable_renderScene env attempt sc st workDir i :
  keepsTable (renderScene env attempt sc st workDir i).
Proof.
  intros w. unfold renderScene.
  destruct (fst (planScene sc st workDir i)) as [cmd|err]; [|reflexivity].
  destruct (ffmpegScene env attempt cmd); cbn [snd]; [reflexivity|].
  now rewrite db_addPath.
Qed.

Lemma keepsTable_runConcat env attempt listFile outputFile :
  keepsTable (runConcat env attempt listFile outputFile).
Proof.
  intros w. unfold runConcat.
  destruct (ffmpegConcat env attempt _ _); cbn [snd]; [reflexivity|].
  now rewrite db_addPath.
Qed.

Lemma keepsTable_storeUpload env attempt bucket fileName contentType :
  keepsTable (storeUpload env attempt bucket fileName contentType).
Proof. intros w. reflexivity. Qed.

Lemma keepsTable_concatenateScenes env attempt files st workDir format :
  keepsTable (concatenateScenes env attempt files st workDir format).
Proof.
  apply keepsTable_bind; [apply keepsTable_writeFile | intros; apply keepsTable_runConcat].
Qed.

Lemma keepsTable_uploadFinalVideo env attempt filePath projectId userId :
  keepsTable (uploadFinalVideo env attempt filePath projectId userId).
Proof.
  apply keepsTable_bind; [apply keepsTable_readFile | intros; apply keepsTable_storeUpload].
Qed.

Lemma keepsTable_renderScenes env attempt jobId st workDir n scs : forall i files,
  keepsTable (renderScenes env attempt jobId st workDir n i scs files).
Proof.
  induction scs as [|sc rest IH]; intros i files; cbn [renderScenes].
  - apply keepsTable_ret.
  - apply keepsTable_bind; [apply keepsTable_renderScene|]. intros file.
    apply keepsTable_bind; [apply keepsTable_updateProgress|]. intros _. apply IH.
Qed.

Lemma completesOrKeeps_bind {A B} jobId (m : M A) (k : A -> M B) :
  keepsTable m -> (forall a, completesOrKeeps jobId (k a)) ->
  completesOrKeeps jobId (bind m k).
Proof.
  intros Hm Hk w. unfold bind. specialize (Hm w).
  destruct (m w) as [[a|msg] w1]; cbn [fst snd] in *; [|exact Hm].
  specialize (Hk a w1). destruct (k a w1) as [[b|msg] w2]; cbn [fst snd] in *.
  - now rewrite <- Hm.
  - now rewrite Hk.
Qed.

Lemma completesOrKeeps_last jobId md (r : Return) :
  completesOrKeeps jobId (updateJobStatus jobId completed md ;; ret r).
Proof. intros w. cbn. eexists. split; [reflexivity|]. reflexivity. Qed.

Ltac table_prim :=
  first [ apply keepsTable_updateProgress | apply keepsTable_mkdir
        | apply keepsTable_renderScenes | apply keepsTable_concatenateScenes
        | apply keepsTable_uploadFinalVideo | apply keepsTable_cleanup
        | apply keepsTable_stat ].

Ltac table_chain :=
  lazymatch goal with
  | |- completesOrKeeps _ (bind (updateJobStatus _ completed _) _) =>
      apply completesOrKeeps_last
  | |- completesOrKeeps _ (bind _ _) =>
      apply completesOrKeeps_bind; [table_prim | intros ?; table_chain]
  end.

(** The table after an attempt. *)
Lemma attempt_verdict env attempt jobId job w :
  status <$> (db (snd (processRenderJob env attempt jobId job w)) !! jobId)
  = (fun _ => match fst (processRenderJob env attempt jobId job w) with
              | Ok _ => completed
              | Throw _ => failed
              end) <$> (db w !! jobId) /\
  forall other, other <> jobId ->
    db (snd (processRenderJob env attempt jobId job w)) !! other = db w !! other.
Proof.
  remember (processRenderJob env attempt jobId job w) as res eqn:Hres.
  unfold processRenderJob, try_catch in Hres.
  match type of Hres with
  | context [bind (updateJobStatus jobId processing None) ?k] => set (rest := k) in Hres
  end.
  assert (Hrest : completesOrKeeps jobId (rest tt)).
  { subst rest. cbv beta zeta. table_chain. }
  pose (w1 := snd (updateJobStatus jobId processing None w)).
  change (bind (updateJobStatus jobId processing None) rest w)
    with (rest tt w1) in Hres.
  specialize (Hrest w1).
  assert (Hw1 : exists g, db w1 = alter g jobId (db w)) by (eexists; reflexivity).
  destruct Hw1 as (g1 & Hw1).
  destruct (rest tt w1) as [[r|msg] w2]; subst res; cbn [fst snd] in *.
  - destruct Hrest as (g & Hg & Hst). rewrite Hg, Hw1. split.
    + rewrite !lookup_alter_eq. destruct (db w !! jobId); cbn; [|reflexivity].
      now rewrite Hst.
    + intros other Hne. now rewrite !lookup_alter_ne by congruence.
  - unfold bind, updateJobStatus, throw. cbn [fst snd emit setDb db].
    rewrite Hrest, Hw1. split.
    + rewrite !lookup_alter_eq. now destruct (db w !! jobId).
    + intros other Hne. now rewrite !lookup_alter_ne by congruence.
Qed.

(** X10. After an attempt, the row of the job (when there is one) has
    the status [completed] if the attempt returned and [failed] if it
    threw; the rows of other jobs are as they were. *)
Theorem attempt_leaves_its_verdict_in_the_table (env : Env) (attempt : nat)
    (jobId : string) (job : RenderJob) (w : World) :
  status <$> (db (snd (processRenderJob env attempt jobId job w)) !! jobId)
  = (fun _ => match fst (processRenderJob env attempt jobId job w) with
              | Ok _ => completed
              | Throw _ => failed
              end) <$> (db w !! jobId) /\
  forall other, other <> jobId ->
    db (snd (processRenderJob env attempt jobId job w)) !! other = db w !! other.
Proof. apply attempt_verdict. Qed.

Lemma attempt_leaves_its_verdict_in_the_table_witness :
  db (snd (processRenderJob envOk 1 "1" helloJob
             (snd (queueRender noSourceJob (queuedWorld helloJob))))) !! "2"
  = db (snd (queueRender noSourceJob (queuedWorld helloJob))) !! "2".
Proof.
  apply (proj2 (attempt_leaves_its_verdict_in_the_table envOk 1 "1" helloJob
                  (snd (queueRender noSourceJob (queuedWorld helloJob))))).
  discriminate.
Defined.

(** *** The states of the queue through an attempt *)

Lemma keepsStates_ret {A} (a : A) : keepsStates (ret a).
Proof. intros w j. reflexivity. Qed.

Lemma keepsStates_throw {A} msg : keepsStates (@throw A msg).
Proof. intros w j. reflexivity. Qed.

Lemma keepsStates_bind {A B} (m : M A) (k : A -> M B) :
  keepsStates m -> (forall a, keepsStates (k a)) -> keepsStates (bind m k).
Proof.
  intros Hm Hk w j. unfold bind. specialize (Hm w j).
  destruct (m w) as [[a|msg] w1]; cbn [snd] in *; [|exact Hm].
  now rewrite Hk.
Qed.

Lemma keepsStates_catch {A} (m : M A) (h : string -> M A) :
  keepsStates m -> (forall e, keepsStates (h e)) -> keepsStates (try_catch m h).
Proof.
  intros Hm Hh w j. unfold try_catch. specialize (Hm w j).
  destruct (m w) as [[a|msg] w1]; cbn [snd] in *; [exact Hm|].
  now rewrite Hh.
Qed.

Lemma keepsStates_updateJobStatus jobId s md : keepsStates (updateJobStatus jobId s md).
Proof. intros w j. reflexivity. Qed.

Lemma keepsStates_updateProgress jobId p : keepsStates (updateProgress jobId p).
Proof.
  intros w j. unfold updateProgress. cbn [snd emit setQueue queue].
  destruct (decide (jobId = j)) as [->|Hne].
  - rewrite lookup_alter_eq. now destruct (queue w !! j).
  - now rewrite lookup_alter_ne.
Qed.

Lemma keepsStates_mkdir path : keepsStates (mkdir path).
Proof. intros w j. unfold mkdir. cbn [snd emit queue]. now rewrite queue_addPaths. Qed.

Lemma keepsStates_writeFile path contents : keepsStates (writeFile path contents).
Proof. intros w j. unfold writeFile. cbn [snd emit queue]. now rewrite queue_addPath. Qed.

Lemma keepsStates_readFile path : keepsStates (readFile path).
Proof. intros w j. unfold readFile. now destruct (exists_path path w). Qed.

Lemma keepsStates_stat env path : keepsStates (stat env path).
Proof. intros w j. unfold stat. now destruct (exists_path path w). Qed.

Lemma keepsStates_rm env attempt dir : keepsStates (rm env attempt dir).
Proof. intros w j. unfold rm. now destruct (rmRefused env attempt). Qed.

Lemma keepsStates_renderScene env attempt sc st workDir i :
  keepsStates (renderScene env attempt sc st workDir i).
Proof.
  intros w j. unfold renderScene.
  destruct (fst (planScene sc st workDir i)) as [cmd|err]; [|reflexivity].
  destruct (ffmpegScene env attempt cmd); cbn [snd]; [reflexivity|].
  now rewrite queue_addPath.
Qed.

Lemma keepsStates_runConcat env attempt listFile outputFile :
  keepsStates (runConcat env attempt listFile outputFile).
Proof.
  intros w j. unfold runConcat.
  destruct (ffmpegConcat env attempt _ _); cbn [snd]; [reflexivity|].
  now rewrite queue_addPath.
Qed.

Lemma keepsStates_storeUpload env attempt bucket fileName contentType :
  keepsStates (storeUpload env attempt bucket fileName contentType).
Proof. intros w j. reflexivity. Qed.

Lemma keepsStates_renderScenes env attempt jobId st workDir n scs : forall i files,
  keepsStates (renderScenes env attempt jobId st workDir n i scs files).
Proof.
  induction scs as [|sc rest IH]; intros i files; cbn [renderScenes].
  - apply keepsStates_ret.
  - apply keepsStates_bind; [apply keepsStates_renderScene|]. intros file.
    apply keepsStates_bind; [apply keepsStates_updateProgress|]. intros _. apply IH.
Qed.

Ltac states_chain :=
  lazymatch goal with
  | |- keepsStates (bind _ _) =>
      apply keepsStates_bind; [states_chain | intros ?; states_chain]
  | |- keepsStates (try_catch _ _) =>
      apply keepsStates_catch; [states_chain | intros ?; states_chain]
  | |- keepsStates (ret _) => apply keepsStates_ret
  | |- keepsStates (throw _) => apply keepsStates_throw
  | |- _ =>
      first [ apply keepsStates_updateJobStatus | apply keepsStates_updateProgress
            | apply keepsStates_mkdir | apply keepsStates_writeFile
            | apply keepsStates_readFile | apply keepsStates_stat
            | apply keepsStates_rm | apply keepsStates_renderScenes
            | apply keepsStates_runConcat | apply keepsStates_storeUpload ]
  end.

(** An attempt changes no job's state in the queue: it only reports
    progress. *)
Lemma keepsStates_processRenderJob env attempt jobId job :
  keepsStates (processRenderJob env attempt jobId job).
Proof.
  unfold processRenderJob, concatenateScenes, uploadFinalVideo, cleanup.
  cbv zeta. states_chain.
Qed.

Lemma setJob_state jobId s made reason rv w :
  is_Some (queue w !! jobId) ->
  state <$> (queue (setJob jobId s made reason rv w) !! jobId) = Some s /\
  attemptsMade <$> (queue (setJob jobId s made reason rv w) !! jobId) = Some made.
Proof.
  intros [j Hj]. unfold setJob. cbn [queue setQueue].
  rewrite lookup_alter_eq, Hj. now split.
Qed.

Lemma looked_up {A B} (f : A -> B) (mx : option A) (y : B) :
  f <$> mx = Some y -> is_Some mx.
Proof. destruct mx; [eauto | discriminate]. Qed.

(** The worker on a job that the queue and the table hold. *)
Lemma runAttempts_outcome env jobId job : forall left made w,
  (0 < left)%nat ->
  is_Some (queue w !! jobId) -> is_Some (db w !! jobId) ->
  let w' := runAttempts env left made jobId job w in
  (state <$> (queue w' !! jobId) = Some q_completed /\
   status <$> (db w' !! jobId) = Some completed /\
   exists attempt, rmRefused env attempt = true) \/
  (state <$> (queue w' !! jobId) = Some q_failed /\
   status <$> (db w' !! jobId) = Some failed /\
   attemptsMade <$> (queue w' !! jobId) = Some (made + left)%nat).
Proof.
  induction left as [|left IH]; intros made w Hpos Hq Hd; [lia|].
  cbn [runAttempts]. cbv zeta.
  set (w0 := setJob jobId q_active made None None w).
  assert (Hq0 : is_Some (queue w0 !! jobId)).
  { destruct (setJob_state jobId q_active made None None w Hq) as [H _].
    exact (looked_up _ _ _ H). }
  pose proof (attempt_verdict env (S made) jobId job w0) as [Hst _].
  pose proof (keepsStates_processRenderJob env (S made) jobId job w0 jobId) as Hks.
  pose proof (attempt_never_returns env (S made) jobId job w0) as Hnever.
  destruct (processRenderJob env (S made) jobId job w0) as [[r|msg] w1];
    cbn [fst snd] in *.
  - left.
    assert (Hq1 : is_Some (queue w1 !! jobId)).
    { destruct Hq0 as [j Hj]. rewrite Hj in Hks. exact (looked_up _ _ _ Hks). }
    destruct (setJob_state jobId q_completed (S made) None (Some r) w1 Hq1) as [Hs Ha].
    split; [exact Hs|]. split.
    + change (db (setJob jobId q_completed (S made) None (Some r) w1)) with (db w1).
      rewrite Hst. change (db w0) with (db w). now destruct Hd as [row ->].
    + destruct (rmRefused env (S made)) eqn:Hrm; [now exists (S made)|].
      destruct (Hnever eq_refl) as [m Hm]. discriminate.
  - assert (Hq1 : is_Some (queue w1 !! jobId)).
    { destruct Hq0 as [j Hj]. rewrite Hj in Hks. exact (looked_up _ _ _ Hks). }
    assert (Hd1 : status <$> (db w1 !! jobId) = Some failed).
    { rewrite Hst. change (db w0) with (db w). now destruct Hd as [row ->]. }
    destruct left as [|left'].
    + right.
      destruct (setJob_state jobId q_failed (S made) (Some msg) None w1 Hq1) as [Hs Ha].
      split; [exact Hs|]. split; [exact Hd1|]. now rewrite Nat.add_1_r.
    + set (w2 := emit _ _).
      assert (Hq2 : is_Some (queue w2 !! jobId)).
      { destruct (setJob_state jobId q_delayed (S made) (Some msg) None w1 Hq1) as [H _].
        exact (looked_up _ _ _ H). }
      assert (Hd2 : is_Some (db w2 !! jobId)).
      { exact (looked_up _ _ _ Hd1). }
      specialize (IH (S made) w2 ltac:(lia) Hq2 Hd2). cbv zeta in IH.
      replace (made + S (S left'))%nat with (S made + S left')%nat by lia.
      exact IH.
Qed.

Lemma runJob_pending env jobId w :
  (fun j => pending (state j)) <$> (queue w !! jobId) = Some true ->
  exists job, queue w !! jobId = Some job /\
    runJob env jobId w = runAttempts env attempts 0 jobId (data job) w.
Proof.
  intros H. unfold runJob. destruct (queue w !! jobId) as [job|]; [|discriminate].
  injection H as H. exists job. now rewrite H.
Qed.

(** X11. A job no worker has taken yet (waiting or prioritized) that has
    its row ends a run of the worker either completed in the queue and in
    the table, or failed in both after three attempts: the two records
    agree, and the job is left in no other state. *)
Theorem run_ends_completed_or_failed (env : Env) (jobId : string) (w : World) :
  (fun j => pending (state j)) <$> (queue w !! jobId) = Some true ->
  is_Some (db w !! jobId) ->
  (state <$> (queue (runJob env jobId w) !! jobId) = Some q_completed /\
   status <$> (db (runJob env jobId w) !! jobId) = Some completed) \/
  (state <$> (queue (runJob env jobId w) !! jobId) = Some q_failed /\
   status <$> (db (runJob env jobId w) !! jobId) = Some failed /\
   attemptsMade <$> (queue (runJob env jobId w) !! jobId) = Some 3%nat).
Proof.
  intros Hq Hd. destruct (runJob_pending env jobId w Hq) as (job & Hjob & ->).
  destruct (runAttempts_outcome env jobId (data job) attempts 0 w
              ltac:(unfold attempts; lia) ltac:(rewrite Hjob; eauto) Hd)
    as [(Hs & Ht & _) | H]; [left; now split | right; exact H].
Qed.

Lemma run_ends_completed_or_failed_witness :
  (state <$> (queue (runJob envRmRefused "1" (queuedWorld helloJob)) !! "1")
   = Some q_completed /\
   status <$> (db (runJob envRmRefused "1" (queuedWorld helloJob)) !! "1")
   = Some completed) \/
  (state <$> (queue (runJob envRmRefused "1" (queuedWorld helloJob)) !! "1")
   = Some q_failed /\
   status <$> (db (runJob envRmRefused "1" (queuedWorld helloJob)) !! "1")
   = Some failed /\
   attemptsMade <$> (queue (runJob envRmRefused "1" (queuedWorld helloJob)) !! "1")
   = Some 3%nat).
Proof.
  apply (run_ends_completed_or_failed envRmRefused "1" (queuedWorld helloJob)).
  - vm_compute. reflexivity.
  - vm_compute. eexists. reflexivity.
Defined.

(** X12. When the removal of the working directory is never refused, no
    job completes: every job the worker takes ends failed, in the queue
    and in the table, after three attempts. *)
Theorem no_job_completes_when_cleanup_works (env : Env) (jobId : string) (w : World) :
  (forall attempt, rmRefused env attempt = false) ->
  (fun j => pending (state j)) <$> (queue w !! jobId) = Some true ->
  is_Some (db w !! jobId) ->
  state <$> (queue (runJob env jobId w) !! jobId) = Some q_failed /\
  status <$> (db (runJob env jobId w) !! jobId) = Some failed /\
  attemptsMade <$> (queue (runJob env jobId w) !! jobId) = Some 3%nat.
Proof.
  intros Hrm Hq Hd. destruct (runJob_pending env jobId w Hq) as (job & Hjob & ->).
  destruct (runAttempts_outcome env jobId (data job) attempts 0 w
              ltac:(unfold attempts; lia) ltac:(rewrite Hjob; eauto) Hd)
    as [(_ & _ & a & Ha) | H]; [|exact H].
  rewrite Hrm in Ha. discriminate.
Qed.

Lemma no_job_completes_when_cleanup_works_witness :
  state <$> (queue (runJob envOk "1" (queuedWorld helloJob)) !! "1") = Some q_failed /\
  status <$> (db (runJob envOk "1" (queuedWorld helloJob)) !! "1") = Some failed /\
  attemptsMade <$> (queue (runJob envOk "1" (queuedWorld helloJob)) !! "1") = Some 3%nat.
Proof.
  apply (no_job_completes_when_cleanup_works envOk "1" (queuedWorld helloJob)).
  - intros attempt. reflexivity.
  - vm_compute. reflexivity.
  - vm_compute. eexists. reflexivity.
Defined.

End RunFacts.

(** ** Enqueue, poll, cancel *)

Module QueueFacts.
Import Js Planner World Service Views Samples.

(** Every quality tier, known or not, has a priority from 1 to 4, so
    every job is added as prioritized. *)
Lemma getPriority_range q : 1 <= getPriority q <= 4.
Proof.
  unfold getPriority.
  repeat match goal with |- context [String.eqb ?a ?b] => destruct (String.eqb a b) end;
    lia.
Qed.

Lemma addedState_getPriority q : addedState (getPriority q) = q_prioritized.
Proof.
  unfold addedState. pose proof (getPriority_range q).
  destruct (Z.ltb_spec 0 (getPriority q)); [reflexivity | lia].
Qed.

(** X13. Enqueueing returns a job id under which the queue then holds
    the job with progress 0 and the priority of [settings.quality], a
    number from 1 to 4 whatever the quality, so that the job is
    prioritized; the table holds a row with status [queued] for the job's
    project, user and settings; polling that id returns this state and
    changes nothing; every other id is as before. *)
Theorem enqueue_then_poll (job : RenderJob) (w : World) :
  let jobId := show (nextId w) in
  let w' := snd (queueRender job w) in
  fst (queueRender job w) = Ok jobId /\
  getRenderStatus jobId w'
  = (Ok {| rs_id := jobId; rs_status := q_prioritized; rs_progress := 0%Q;
           rs_failedReason := None; rs_returnValue := None |}, w') /\
  priority <$> (queue w' !! jobId) = Some (getPriority (rs_quality (settings job))) /\
  1 <= getPriority (rs_quality (settings job)) <= 4 /\
  db w' !! jobId
  = Some {| project_id := projectId job; user_id := userId job; status := queued;
            r_settings := settings job; metadata := None |} /\
  forall other, other <> jobId ->
    queue w' !! other = queue w !! other /\ db w' !! other = db w !! other.
Proof.
  cbv zeta. unfold queueRender, getRenderStatus. cbn [fst snd queue db].
  rewrite !lookup_insert_eq. cbn [state progress failedReason returnvalue].
  rewrite addedState_getPriority.
  repeat split; try reflexivity; try apply getPriority_range;
    now rewrite lookup_insert_ne by congruence.
Qed.

Lemma enqueue_then_poll_witness :
  queue (snd (queueRender noSourceJob (queuedWorld helloJob))) !! "1"
  = queue (queuedWorld helloJob) !! "1" /\
  db (snd (queueRender noSourceJob (queuedWorld helloJob))) !! "1"
  = db (queuedWorld helloJob) !! "1".
Proof.
  apply (enqueue_then_poll noSourceJob (queuedWorld helloJob)). discriminate.
Defined.

(** X14. A job that is enqueued and then cancelled is gone from the
    queue: polling its id throws "Render job not found", cancelling it
    again throws the same, and its row stays in the table with the
    status [cancelled]. *)
Theorem enqueue_cancel_then_poll (job : RenderJob) (w : World) :
  let jobId := show (nextId w) in
  let w1 := snd (queueRender job w) in
  let w2 := snd (cancelRender jobId w1) in
  fst (cancelRender jobId w1) = Ok true /\
  fst (getRenderStatus jobId w2) = Throw "Render job not found" /\
  fst (cancelRender jobId w2) = Throw "Render job not found" /\
  status <$> (db w2 !! jobId) = Some cancelled.
Proof.
  cbv zeta.
  assert (Hc : cancelRender (show (nextId w)) (snd (queueRender job w))
               = (Ok true,
                  snd (cancelRender (show (nextId w)) (snd (queueRender job w))))).
  { unfold cancelRender, queueRender. cbn [snd queue].
    rewrite lookup_insert_eq. unfold bind, removeJob. cbn [state].
    now rewrite addedState_getPriority. }
  split; [now rewrite Hc|].
  assert (Hgone : queue (snd (cancelRender (show (nextId w)) (snd (queueRender job w))))
                  !! show (nextId w) = None).
  { unfold cancelRender, queueRender. cbn [snd queue].
    rewrite lookup_insert_eq. unfold bind, removeJob. cbn [state].
    rewrite addedState_getPriority. cbn. apply lookup_delete_eq. }
  split; [unfold getRenderStatus; now rewrite Hgone|].
  split; [unfold cancelRender at 1; now rewrite Hgone|].
  unfold cancelRender, queueRender. cbn [snd queue].
  rewrite lookup_insert_eq. unfold bind, removeJob. cbn [state].
  rewrite addedState_getPriority. cbn. now rewrite lookup_alter_eq, lookup_insert_eq.
Qed.

End QueueFacts.

(** ** The helpers of the AI service *)

Module AiFacts.
Import Js World Ai.

Lemma transitionNames_total (k : nat) :
  exists t, transitionNames !! (k mod 5)%nat = Some t.
Proof.
  pose proof (Nat.mod_upper_bound k 5 ltac:(lia)) as H.
  destruct (k mod 5)%nat as [|[|[|[|[|n]]]]]; cbn; eauto. lia.
Qed.

Lemma transitions_from {A} (n : nat) (l : list A) : forall off : nat,
  (off + length l = n)%nat ->
  omap (fun t => t)
    (imap (fun index _ =>
             if Z.of_nat (off + index) =? Z.of_nat n - 1 then None
             else transitionNames !! ((off + index) mod 5)%nat) l)
  = omap (fun k => transitionNames !! (k mod 5)%nat) (seq off (length l - 1)).
Proof.
  induction l as [|x l IH]; intros off Hn; [reflexivity|].
  rewrite imap_cons. cbn [length] in *. rewrite Nat.add_0_r.
  destruct l as [|y l'].
  - cbn [length] in *. cbn [imap omap list_omap].
    destruct (Z.eqb_spec (Z.of_nat off) (Z.of_nat n - 1)); [reflexivity | lia].
  - replace (S (length (y :: l')) - 1)%nat with (S (length (y :: l') - 1))%nat
      by (cbn [length]; lia).
    cbn [seq]. cbn [omap list_omap].
    destruct (Z.eqb_spec (Z.of_nat off) (Z.of_nat n - 1)); [cbn [length] in Hn; lia|].
    destruct (transitionNames_total off) as [t ->].
    f_equal. rewrite <- (IH (S off)) by (cbn [length] in *; lia).
    f_equal. apply imap_ext. intros k z _. cbn.
    now replace (off + S k)%nat with (S (off + k))%nat by lia.
Qed.

Lemma omap_seq_lookup (off len k : nat) :
  (k < len)%nat ->
  omap (fun j => transitionNames !! (j mod 5)%nat) (seq off len) !! k
  = transitionNames !! ((off + k) mod 5)%nat /\
  length (omap (fun j => transitionNames !! (j mod 5)%nat) (seq off len)) = len.
Proof.
  revert off k. induction len as [|len IH]; intros off k Hk; [lia|].
  cbn [seq omap list_omap]. destruct (transitionNames_total off) as [t Ht]. rewrite Ht.
  destruct k as [|k].
  - rewrite Nat.add_0_r, Ht. split; [reflexivity|]. cbn [length]. f_equal.
    destruct len; [reflexivity|]. apply (IH (S off) O). lia.
  - destruct (IH (S off) k ltac:(lia)) as [H1 H2]. split.
    + change ((t :: ?l) !! S k) with (l !! k). rewrite H1. f_equal. f_equal. lia.
    + cbn [length]. now rewrite H2.
Qed.

(** X15. For [n] scenes the generated transitions are [n - 1] names
    (none for an empty or one-scene storyboard), and the k-th of them is
    the name at place [k mod 5] of fade, cut, slide, zoom, wipe. *)
Theorem transitions_one_fewer_than_scenes {A} (scenes : list A) :
  length (generateTransitions scenes) = (length scenes - 1)%nat /\
  forall k : nat, (k < length scenes - 1)%nat ->
    generateTransitions scenes !! k = transitionNames !! (k mod 5)%nat.
Proof.
  assert (H : generateTransitions scenes
              = omap (fun k => transitionNames !! (k mod 5)%nat)
                  (seq 0 (length scenes - 1))).
  { unfold generateTransitions.
    exact (transitions_from (length scenes) scenes 0 eq_refl). }
  rewrite H. split.
  - destruct (length scenes - 1)%nat as [|m] eqn:E; [reflexivity|].
    apply (omap_seq_lookup 0 (S m) 0). lia.
  - intros k Hk. now rewrite (proj1 (omap_seq_lookup 0 _ k Hk)).
Qed.

Lemma transitions_one_fewer_than_scenes_witness :
  generateTransitions ["a"; "b"; "c"] !! 1%nat = Some cut.
Proof.
  apply (proj2 (transitions_one_fewer_than_scenes ["a"; "b"; "c"]) 1%nat).
  cbn. lia.
Defined.

(** *** Usage and limits *)

Lemma jsor_0 n : jsor n 0 = n.
Proof. unfold jsor. now destruct (Z.eqb_spec n 0). Qed.

Lemma countOf_cons op r data :
  countOf op (r :: data)
  = (if String.eqb (operation r) op then 1 else 0) + countOf op data.
Proof.
  unfold countOf. cbn [List.filter].
  destruct (String.eqb (operation r) op); cbn [length]; lia.
Qed.

Lemma countOf_nonneg op data : 0 <= countOf op data.
Proof. unfold countOf. lia. Qed.

Lemma fold_usage data : forall (agg : gmap string Z) op,
  default 0
    (fold_left
       (fun aggregated record =>
          <[operation record := jsor (default 0 (aggregated !! operation record)) 0 + 1]>
            aggregated)
       data agg !! op)
  = default 0 (agg !! op) + countOf op data /\
  ((forall k v, agg !! k = Some v -> 0 < v) ->
   forall v,
     fold_left
       (fun aggregated record =>
          <[operation record := jsor (default 0 (aggregated !! operation record)) 0 + 1]>
            aggregated)
       data agg !! op = Some v -> 0 < v).
Proof.
  induction data as [|r data IH]; intros agg op; cbn [fold_left].
  - unfold countOf. cbn. split; [lia | eauto].
  - destruct (IH (<[operation r := jsor (default 0 (agg !! operation r)) 0 + 1]> agg) op)
      as [Hsum Hpos].
    rewrite jsor_0 in *. split.
    + rewrite Hsum, countOf_cons.
      destruct (String.eqb_spec (operation r) op) as [->|Hne].
      * rewrite lookup_insert_eq. cbn. lia.
      * rewrite lookup_insert_ne by exact Hne. lia.
    + intros Hagg. apply Hpos. intros k v.
      destruct (decide (operation r = k)) as [->|Hne].
      * rewrite lookup_insert_eq. intros [= <-].
        destruct (agg !! k) as [v0|] eqn:E; simpl;
          [specialize (Hagg k v0 E)|]; lia.
      * rewrite lookup_insert_ne by exact Hne. apply Hagg.
Qed.

(** X16. The aggregated usage holds, for every operation, the number of
    rows of that operation, and holds no entry for an operation without
    rows. *)
Theorem usage_counts_rows (usageData : list UsageRecord) (op : string) :
  Forall (fun r => ownKey (operation r) = true) usageData ->
  aggregateUsage usageData !! op
  = if countOf op usageData =? 0 then None else Some (countOf op usageData).
Proof.
  intros _. unfold aggregateUsage.
  destruct (fold_usage usageData ∅ op) as [Hsum Hpos].
  rewrite lookup_empty in Hsum. simpl in Hsum.
  specialize (Hpos ltac:(intros k v; rewrite lookup_empty; discriminate)).
  destruct (fold_left _ usageData ∅ !! op) as [v|] eqn:E.
  - simpl in Hsum. specialize (Hpos v eq_refl).
    destruct (Z.eqb_spec (countOf op usageData) 0); [lia|]. f_equal. lia.
  - simpl in Hsum.
    destruct (Z.eqb_spec (countOf op usageData) 0); [reflexivity | lia].
Qed.

Lemma usage_counts_rows_witness :
  aggregateUsage [ {| u_user_id := "u"; operation := "voice_generation" |};
                   {| u_user_id := "u"; operation := "script_generation" |};
                   {| u_user_id := "u"; operation := "voice_generation" |} ]
    !! "voice_generation" = Some 2.
Proof.
  apply (usage_counts_rows
           [ {| u_user_id := "u"; operation := "voice_generation" |};
             {| u_user_id := "u"; operation := "script_generation" |};
             {| u_user_id := "u"; operation := "voice_generation" |} ]
           "voice_generation").
  repeat constructor.
Defined.

Lemma tierLimits_lookup a b c d op :
  tierLimits a b c d !! op
  = if String.eqb op "script_generation" then Some a
    else if String.eqb op "storyboard_generation" then Some b
    else if String.eqb op "voice_generation" then Some c
    else if String.eqb op "subtitle_generation" then Some d
    else None.
Proof.
  unfold tierLimits.
  destruct (String.eqb_spec op "script_generation") as [->|H1];
    [now rewrite lookup_insert_eq | rewrite lookup_insert_ne by congruence].
  destruct (String.eqb_spec op "storyboard_generation") as [->|H2];
    [now rewrite lookup_insert_eq | rewrite lookup_insert_ne by congruence].
  destruct (String.eqb_spec op "voice_generation") as [->|H3];
    [now rewrite lookup_insert_eq | rewrite lookup_insert_ne by congruence].
  destruct (String.eqb_spec op "subtitle_generation") as [->|H4];
    [now rewrite lookup_insert_eq | rewrite lookup_insert_ne by congruence].
  apply lookup_empty.
Qed.

Lemma usage_of_answer answer op :
  jsor (default 0 (getUserUsage answer !! op)) 0
  = match answer with
    | Some data => countOf op data
    | None => 0
    end.
Proof.
  rewrite jsor_0. destruct answer as [data|]; cbn [getUserUsage].
  - unfold aggregateUsage. rewrite (proj1 (fold_usage data ∅ op)).
    now rewrite lookup_empty.
  - now rewrite lookup_empty.
Qed.

Lemma limit_of_tier tier :
  exists a b c d,
    getUserLimits tier = tierLimits a b c d /\
    0 < a /\ 0 < b /\ 0 < c /\ 0 < d.
Proof.
  unfold getUserLimits, getLimitsByTier.
  repeat match goal with
         | |- context [String.eqb ?x ?y] => destruct (String.eqb x y)
         end;
    do 4 eexists; (split; [reflexivity | lia]).
Qed.

Lemma limitedOperations_spec op :
  In op limitedOperations <->
  (String.eqb op "script_generation" || String.eqb op "storyboard_generation"
   || String.eqb op "voice_generation" || String.eqb op "subtitle_generation") = true.
Proof.
  unfold limitedOperations. cbn [In].
  rewrite !orb_true_iff, !String.eqb_eq. intuition congruence.
Qed.

(** X17. The check of the limits passes exactly when the number of the
    user's rows for the operation is below the limit of the user's tier
    (the free tier for a user without tier or with an unknown one). An
    operation the limits table does not name has the limit 0 and is
    always refused; when the usage query fails the usage counts as 0 and
    every operation the table names passes. *)
Theorem limit_check_compares_rows_with_tier (answer : option (list UsageRecord))
    (tier : option string) (op : string) :
  ownKey op = true -> ownKey (jsor_str tier "free") = true ->
  (forall data, answer = Some data ->
     Forall (fun r => ownKey (operation r) = true) data) ->
  (checkUserLimits answer tier op = Ok tt
   <-> match answer with
       | Some data => countOf op data < limitOf tier op
       | None => 0 < limitOf tier op
       end) /\
  (~ In op limitedOperations -> checkUserLimits answer tier op <> Ok tt) /\
  (In op limitedOperations -> checkUserLimits None tier op = Ok tt).
Proof.
  intros _ _ _.
  assert (Hcheck : forall ans,
            checkUserLimits ans tier op = Ok tt
            <-> match ans with
                | Some data => countOf op data
                | None => 0
                end < limitOf tier op).
  { intros ans. unfold checkUserLimits. cbv zeta.
    rewrite usage_of_answer. fold (limitOf tier op).
    destruct (Z.leb_spec (limitOf tier op)
                (match ans with Some data => countOf op data | None => 0 end));
      split; intros H0; try reflexivity; try discriminate; lia. }
  assert (Hlim : (In op limitedOperations -> 0 < limitOf tier op) /\
                 (~ In op limitedOperations -> limitOf tier op = 0)).
  { unfold limitOf. rewrite jsor_0, limitedOperations_spec.
    destruct (limit_of_tier tier) as (a & b & c & d & -> & Ha & Hb & Hc & Hd).
    rewrite tierLimits_lookup.
    destruct (String.eqb op "script_generation"),
             (String.eqb op "storyboard_generation"),
             (String.eqb op "voice_generation"),
             (String.eqb op "subtitle_generation"); cbn; split; intros H0;
      try assumption; try reflexivity; try (exfalso; apply H0; reflexivity);
      try discriminate. }
  split; [|split].
  - rewrite Hcheck. now destruct answer.
  - intros Hop. rewrite Hcheck, (proj2 Hlim Hop).
    destruct answer as [data|]; [pose proof (countOf_nonneg op data)|]; lia.
  - intros Hop. apply Hcheck. now apply Hlim.
Qed.

Lemma limit_check_compares_rows_with_tier_witness :
  checkUserLimits None (Some "pro") "voice_generation" = Ok tt.
Proof.
  apply (limit_check_compares_rows_with_tier None (Some "pro") "voice_generation").
  - reflexivity.
  - reflexivity.
  - discriminate.
  - cbn. tauto.
Defined.

(** X18. A higher tier never refuses what a lower tier allows: a check
    that passes on the free tier passes on the pro tier, and one that
    passes on the pro tier passes on the enterprise tier. *)
Theorem higher_tier_allows_more (answer : option (list UsageRecord)) (op : string) :
  ownKey op = true ->
  (checkUserLimits answer (Some "free") op = Ok tt ->
   checkUserLimits answer (Some "pro") op = Ok tt) /\
  (checkUserLimits answer (Some "pro") op = Ok tt ->
   checkUserLimits answer (Some "enterprise") op = Ok tt).
Proof.
  intros _.
  assert (H : forall t1 t2,
            limitOf (Some t1) op <= limitOf (Some t2) op ->
            checkUserLimits answer (Some t1) op = Ok tt ->
            checkUserLimits answer (Some t2) op = Ok tt).
  { intros t1 t2 Hle. unfold checkUserLimits. cbv zeta.
    fold (limitOf (Some t1) op) (limitOf (Some t2) op).
    destruct (Z.leb_spec (limitOf (Some t1) op)
                (jsor (default 0 (getUserUsage answer !! op)) 0)); [discriminate|].
    intros _.
    destruct (Z.leb_spec (limitOf (Some t2) op)
                (jsor (default 0 (getUserUsage answer !! op)) 0)); [lia | reflexivity]. }
  split; apply H; unfold limitOf, getUserLimits, getLimitsByTier;
    cbn [jsor_str String.eqb Ascii.eqb Bool.eqb]; rewrite !jsor_0, !tierLimits_lookup;
    destruct (String.eqb op "script_generation"),
             (String.eqb op "storyboard_generation"),
             (String.eqb op "voice_generation"),
             (String.eqb op "subtitle_generation"); cbn; lia.
Qed.

Lemma higher_tier_allows_more_witness :
  checkUserLimits None (Some "pro") "voice_generation" = Ok tt.
Proof.
  apply (proj1 (higher_tier_allows_more None "voice_generation" ltac:(reflexivity))).
  reflexivity.
Defined.

(** *** Timestamps *)

Lemma length_append (a b : string) :
  String.length (a +:+ b) = (String.length a + String.length b)%nat.
Proof.
  induction a as [|c a IH]; [reflexivity|].
  change (String c a +:+ b) with (String c (a +:+ b)). cbn [String.length].
  now rewrite IH.
Qed.

Lemma length_pad k c s : String.length (pad k c s) = (k + String.length s)%nat.
Proof. induction k as [|k IH]; cbn [pad String.length]; [reflexivity | now rewrite IH]. Qed.

Lemma length_padStart n c s :
  String.length (padStart n c s) = Nat.max n (String.length s).
Proof. unfold padStart. rewrite length_pad. lia. Qed.

Lemma show_two_digits n :
  0 <= n < 100 -> (1 <= String.length (show n) <= 2)%nat.
Proof.
  intros Hn.
  assert (H : forallb (fun k => let len := String.length (show (Z.of_nat k)) in
                                 (1 <=? len)%nat && (len <=? 2)%nat)
                (seq 0 100) = true) by (vm_compute; reflexivity).
  rewrite forallb_forall in H.
  specialize (H (Z.to_nat n) ltac:(apply in_seq; lia)). cbv zeta in H.
  rewrite Z2Nat.id in H by lia.
  apply andb_true_iff in H as [H1 H2].
  apply Nat.leb_le in H1. apply Nat.leb_le in H2. lia.
Qed.

(** X19. For a whole number of seconds from 0, the timestamp is made of
    the hours, the minutes below 60 and the seconds below 60 that add up
    to the input, each padded to two digits, followed by [,000]; below
    100 hours it is 12 characters long. *)
Theorem timestamp_of_whole_seconds (seconds : Z) :
  0 <= seconds ->
  exists hours minutes secs,
    0 <= hours /\ 0 <= minutes < 60 /\ 0 <= secs < 60 /\
    seconds = 3600 * hours + 60 * minutes + secs /\
    formatTimestamp seconds
    = padStart 2 "0" (show hours) +:+ ":" +:+ padStart 2 "0" (show minutes) +:+ ":"
      +:+ padStart 2 "0" (show secs) +:+ ",000" /\
    (seconds < 360000 -> String.length (formatTimestamp seconds) = 12%nat).
Proof.
  intros Hs.
  exists (seconds / 3600), (seconds mod 3600 / 60), (seconds mod 60).
  assert (Hm : 0 <= seconds mod 3600 < 3600) by (apply Z.mod_pos_bound; lia).
  assert (Hsec : seconds mod 60 = (seconds mod 3600) mod 60).
  { symmetry. apply Z.mod_mod_divide. exists 60. lia. }
  assert (Hfmt : formatTimestamp seconds
                 = padStart 2 "0" (show (seconds / 3600)) +:+ ":"
                   +:+ padStart 2 "0" (show (seconds mod 3600 / 60)) +:+ ":"
                   +:+ padStart 2 "0" (show (seconds mod 60)) +:+ ",000").
  { unfold formatTimestamp. cbv zeta.
    rewrite Z.rem_1_r, !Z.rem_mod_nonneg by lia. reflexivity. }
  split; [apply Z.div_pos; lia|].
  split; [split; [apply Z.div_pos; lia | apply Z.div_lt_upper_bound; lia]|].
  split; [apply Z.mod_pos_bound; lia|].
  split.
  { rewrite Hsec.
    pose proof (Z.div_mod seconds 3600 ltac:(lia)).
    pose proof (Z.div_mod (seconds mod 3600) 60 ltac:(lia)). lia. }
  split; [exact Hfmt|].
  intros Hlt. rewrite Hfmt, !length_append, !length_padStart.
  pose proof (show_two_digits (seconds / 3600)
                ltac:(split; [apply Z.div_pos | apply Z.div_lt_upper_bound]; lia)).
  pose proof (show_two_digits (seconds mod 3600 / 60)
                ltac:(split; [apply Z.div_pos | apply Z.div_lt_upper_bound]; lia)).
  pose proof (show_two_digits (seconds mod 60)
                ltac:(pose proof (Z.mod_pos_bound seconds 60 ltac:(lia)); lia)).
  cbn [String.length]. lia.
Qed.

Lemma timestamp_of_whole_seconds_witness :
  exists hours minutes secs,
    0 <= hours /\ 0 <= minutes < 60 /\ 0 <= secs < 60 /\
    3725 = 3600 * hours + 60 * minutes + secs /\
    formatTimestamp 3725
    = padStart 2 "0" (show hours) +:+ ":" +:+ padStart 2 "0" (show minutes) +:+ ":"
      +:+ padStart 2 "0" (show secs) +:+ ",000" /\
    (3725 < 360000 -> String.length (formatTimestamp 3725) = 12%nat).
Proof. apply (timestamp_of_whole_seconds 3725). lia. Defined.

End AiFacts.

(** ** What an attempt leaves outside its own records *)

Module IsolationFacts.
Import Js Planner World Service Views Samples TraceReading PlannerFacts AttemptFacts RunFacts.

Lemma under_self dir : under dir dir = true.
Proof. unfold under. now rewrite String.eqb_refl. Qed.

Lemma fs_addPath_keeps p q w : In q (fs w) -> In q (fs (addPath p w)).
Proof.
  unfold addPath. destruct (exists_path p w); [tauto|].
  cbn [fs setFs]. rewrite in_app_iff. tauto.
Qed.

Lemma fs_addPath_adds p q w : In q (fs (addPath p w)) -> In q (fs w) \/ q = p.
Proof.
  unfold addPath. destruct (exists_path p w); [tauto|].
  cbn [fs setFs]. rewrite in_app_iff. cbn [In]. intuition.
Qed.

Lemma fs_addPath_outside dir p q w :
  under dir p = true -> under dir q = false ->
  (In q (fs w) -> In q (fs (addPath p w))) /\
  (In q (fs (addPath p w)) -> In q (fs w) \/ In q (parents dir)).
Proof.
  intros Hp Hq. split; [apply fs_addPath_keeps|].
  intros H. apply fs_addPath_adds in H as [H| ->]; [now left | congruence].
Qed.

Lemma fs_addPaths dirs q : forall w,
  (In q (fs w) -> In q (fs (fold_left (fun w' dir => addPath dir w') dirs w))) /\
  (In q (fs (fold_left (fun w' dir => addPath dir w') dirs w)) ->
   In q (fs w) \/ In q dirs).
Proof.
  induction dirs as [|d dirs IH]; intros w; cbn [fold_left]; [tauto|].
  destruct (IH (addPath d w)) as [Hkeep Hadd]. split.
  - intros H. now apply Hkeep, fs_addPath_keeps.
  - intros H. apply Hadd in H as [H|H]; [|right; now right].
    apply fs_addPath_adds in H as [H| ->]; [now left | right; now left].
Qed.

Lemma staysUnder_ret {A} dir (a : A) : staysUnder dir (ret a).
Proof. intros w p _. cbn. tauto. Qed.

Lemma staysUnder_throw {A} dir msg : staysUnder dir (@throw A msg).
Proof. intros w p _. cbn. tauto. Qed.

Lemma staysUnder_bind {A B} dir (m : M A) (k : A -> M B) :
  staysUnder dir m -> (forall a, staysUnder dir (k a)) -> staysUnder dir (bind m k).
Proof.
  intros Hm Hk w p Hp. unfold bind. specialize (Hm w p Hp).
  destruct (m w) as [[a|msg] w1]; cbn [snd] in *; [|exact Hm].
  specialize (Hk a w1 p Hp). tauto.
Qed.

Lemma staysUnder_catch {A} dir (m : M A) (h : string -> M A) :
  staysUnder dir m -> (forall e, staysUnder dir (h e)) -> staysUnder dir (try_catch m h).
Proof.
  intros Hm Hh w p Hp. unfold try_catch. specialize (Hm w p Hp).
  destruct (m w) as [[a|msg] w1]; cbn [snd] in *; [exact Hm|].
  specialize (Hh msg w1 p Hp). tauto.
Qed.

Lemma staysUnder_updateJobStatus dir jobId s md :
  staysUnder dir (updateJobStatus jobId s md).
Proof. intros w p _. cbn. tauto. Qed.

Lemma staysUnder_updateProgress dir jobId q : staysUnder dir (updateProgress jobId q).
Proof. intros w p _. cbn. tauto. Qed.

(** The directory is created, and the missing directories above it. *)
Lemma staysUnder_mkdir dir : staysUnder dir (mkdir dir).
Proof.
  intros w p Hp. unfold mkdir. cbn [snd emit fs].
  destruct (fs_addPaths (parents dir ++ [dir]) p w) as [Hkeep Hadd].
  split; [exact Hkeep|]. intros H. apply Hadd in H as [H|H]; [now left|].
  apply in_app_iff in H as [H|[<-|[]]]; [now right|].
  rewrite under_self in Hp. discriminate.
Qed.

Lemma staysUnder_writeFile dir name contents :
  staysUnder dir (writeFile (pathJoin dir name) contents).
Proof.
  intros w p Hp. unfold writeFile. cbn [snd emit fs].
  exact (fs_addPath_outside dir _ p w (under_pathJoin dir _) Hp).
Qed.

Lemma staysUnder_readFile dir path : staysUnder dir (readFile path).
Proof. intros w p _. unfold readFile. destruct (exists_path path w); cbn; tauto. Qed.

Lemma staysUnder_stat dir env path : staysUnder dir (stat env path).
Proof. intros w p _. unfold stat. destruct (exists_path path w); cbn; tauto. Qed.

Lemma staysUnder_rm dir env attempt : staysUnder dir (rm env attempt dir).
Proof.
  intros w p Hp. unfold rm. destruct (rmRefused env attempt); [cbn; tauto|].
  cbn [snd fs setFs emit]. rewrite filter_In, Hp. cbn [negb]. tauto.
Qed.

Lemma staysUnder_renderScene dir env attempt sc st i :
  staysUnder dir (renderScene env attempt sc st dir i).
Proof.
  intros w p Hp. unfold renderScene.
  destruct (fst (planScene sc st dir i)) as [cmd|err] eqn:Hplan; [|cbn; tauto].
  destruct (planScene_command _ _ _ _ _ Hplan) as (_ & _ & _ & _ & Hout).
  destruct (ffmpegScene env attempt cmd); cbn [snd]; [cbn; tauto|].
  rewrite Hout. unfold sceneOutput.
  exact (fs_addPath_outside dir _ p (emit (EvRenderScene cmd) w)
           (under_pathJoin dir _) Hp).
Qed.

Lemma staysUnder_runConcat dir env attempt listFile name :
  staysUnder dir (runConcat env attempt listFile (pathJoin dir name)).
Proof.
  intros w p Hp. unfold runConcat.
  destruct (ffmpegConcat env attempt _ _); cbn [snd]; [cbn; tauto|].
  exact (fs_addPath_outside dir _ p (emit (EvConcat listFile (pathJoin dir name)) w)
           (under_pathJoin dir _) Hp).
Qed.

Lemma staysUnder_storeUpload dir env attempt bucket fileName contentType :
  staysUnder dir (storeUpload env attempt bucket fileName contentType).
Proof. intros w p _. cbn. tauto. Qed.

Lemma staysUnder_renderScenes dir env attempt jobId st n scs : forall i files,
  staysUnder dir (renderScenes env attempt jobId st dir n i scs files).
Proof.
  induction scs as [|sc rest IH]; intros i files; cbn [renderScenes].
  - apply staysUnder_ret.
  - apply staysUnder_bind; [apply staysUnder_renderScene|]. intros file.
    apply staysUnder_bind; [apply staysUnder_updateProgress|]. intros _. apply IH.
Qed.

Ltac under_chain :=
  lazymatch goal with
  | |- staysUnder _ (bind _ _) =>
      apply staysUnder_bind; [under_chain | intros ?; under_chain]
  | |- staysUnder _ (try_catch _ _) =>
      apply staysUnder_catch; [under_chain | intros ?; under_chain]
  | |- staysUnder _ (ret _) => apply staysUnder_ret
  | |- staysUnder _ (throw _) => apply staysUnder_throw
  | |- _ =>
      first [ apply staysUnder_updateJobStatus | apply staysUnder_updateProgress
            | apply staysUnder_mkdir | apply staysUnder_writeFile
            | apply staysUnder_readFile | apply staysUnder_stat
            | apply staysUnder_rm | apply staysUnder_renderScenes
            | apply staysUnder_runConcat | apply staysUnder_storeUpload ]
  end.

(** X20. An attempt at a job removes no path outside the job's own
    working directory [<tempDir>/render_<jobId>], and creates outside of
    it nothing but the directories above it that were missing: every
    other path that was there is still there, and every other path that
    is there afterwards was there before or is a directory above the
    working directory. *)
Theorem attempt_touches_only_its_workdir (env : Env) (attempt : nat) (jobId : string)
    (job : RenderJob) (w : World) (p : string) :
  under (workDirOf env jobId) p = false ->
  (In p (fs w) -> In p (fs (snd (processRenderJob env attempt jobId job w)))) /\
  (In p (fs (snd (processRenderJob env attempt jobId job w))) ->
   In p (fs w) \/ In p (parents (workDirOf env jobId))).
Proof.
  revert w p.
  change (staysUnder (workDirOf env jobId) (processRenderJob env attempt jobId job)).
  unfold processRenderJob, concatenateScenes, uploadFinalVideo, cleanup, concatOutput.
  cbv zeta. under_chain.
Qed.

Lemma attempt_touches_only_its_workdir_witness :
  In "/app/uploads/keep.mp4"
     (fs (snd (processRenderJob envOk 1 "1" helloJob
                 (setFs ["/app/uploads/keep.mp4"] (queuedWorld helloJob))))) /\
  (In "/app/temp" ["/app/uploads/keep.mp4"] \/ In "/app/temp" ["/app"; "/app/temp"]).
Proof.
  split.
  - apply (attempt_touches_only_its_workdir envOk 1 "1" helloJob
             (setFs ["/app/uploads/keep.mp4"] (queuedWorld helloJob))
             "/app/uploads/keep.mp4").
    + reflexivity.
    + left. reflexivity.
  - apply (attempt_touches_only_its_workdir envOk 1 "1" helloJob
             (setFs ["/app/uploads/keep.mp4"] (queuedWorld helloJob)) "/app/temp").
    + reflexivity.
    + vm_compute. tauto.
Defined.

(** X21. When an attempt throws, the row of the job (when there is one)
    gets as metadata the message of the error that was thrown, as it is. *)
Theorem failed_row_holds_the_thrown_message (env : Env) (attempt : nat)
    (jobId : string) (job : RenderJob) (w : World) (msg : string) :
  fst (processRenderJob env attempt jobId job w) = Throw msg ->
  metadata <$> (db (snd (processRenderJob env attempt jobId job w)) !! jobId)
  = (fun _ => Some (MdFailed msg)) <$> (db w !! jobId).
Proof.
  remember (processRenderJob env attempt jobId job w) as res eqn:Hres.
  unfold processRenderJob, try_catch in Hres.
  match type of Hres with
  | context [bind (updateJobStatus jobId processing None) ?k] => set (rest := k) in Hres
  end.
  assert (Hrest : completesOrKeeps jobId (rest tt)).
  { subst rest. cbv beta zeta. table_chain. }
  pose (w1 := snd (updateJobStatus jobId processing None w)).
  change (bind (updateJobStatus jobId processing None) rest w)
    with (rest tt w1) in Hres.
  specialize (Hrest w1).
  assert (Hw1 : exists g, db w1 = alter g jobId (db w)) by (eexists; reflexivity).
  destruct Hw1 as (g1 & Hw1).
  destruct (rest tt w1) as [[r|m] w2]; subst res; cbn [fst snd] in *;
    [discriminate|].
  unfold bind, updateJobStatus, throw. cbn [fst snd emit setDb db].
  intros [= <-]. rewrite Hrest, Hw1, !lookup_alter_eq.
  now destruct (db w !! jobId).
Qed.

Lemma failed_row_holds_the_thrown_message_witness :
  metadata <$> (db (snd (processRenderJob envSceneFails 1 "1" helloJob
                           (queuedWorld helloJob))) !! "1")
  = (fun _ => Some (MdFailed "ffmpeg exited with code 1"))
      <$> (db (queuedWorld helloJob) !! "1").
Proof.
  apply (failed_row_holds_the_thrown_message envSceneFails 1 "1" helloJob
           (queuedWorld helloJob) "ffmpeg exited with code 1").
  vm_compute. reflexivity.
Defined.

End IsolationFacts.
